(** * Emotional speech generation: dual-engine text-to-speech coordinator

    A shallow embedding of [solution.py] (the two engine adapters, the
    dual-engine coordinator, the command-line entry point) and of
    [application/app.py] (the HTTP request boundary and the background task
    store), with the properties of the specification stated over it.

    Conventions of the embedding:
    - a Python [float] is an IEEE 754 binary64 value: Rocq's primitive
      [float], with the same correctly rounded operations;
    - a Python [int] is a [Z];
    - a Python [str] compared against literals (engine selector, style) is a
      [string]; a text whose characters are counted and stripped is a list of
      code points;
    - a Python [dict] is a [gmap];
    - a call that may raise returns an [option] ([None] = raised) wherever the
      caller catches the exception;
    - what the wrapped speech libraries and the operating system do is a
      variable of a Section: the theorems hold for every behaviour. *)

From Stdlib Require Import ZArith QArith Qabs Floats Lia Sorted.
From stdpp Require Import gmap strings list.

Set Warnings "-inexact-float".
Local Open Scope Z_scope.

(** ** Python arithmetic on [int] and [float] *)

Module Py.

(** [float(n)] for an [int]: rounded to nearest even; raises
    [OverflowError] when the rounded value is not finite. *)
Definition float_of_int (n : Z) : option float :=
  let f := SF2Prim (SpecFloat.binary_normalize FloatOps.prec FloatOps.emax n 0 false) in
  if PrimFloat.is_infinity f then None else Some f.

(** [a / b] on floats raises [ZeroDivisionError] on a zero divisor. *)
Definition truediv (a b : float) : option float :=
  if PrimFloat.eqb b 0%float then None else Some (a / b)%float.

(** [n / d] with [n : int] and [d : float]: the int is converted first. *)
Definition int_truediv (n : Z) (d : float) : option float :=
  a ← float_of_int n; truediv a d.

(** [n * x] with [n : int] and [x : float]. *)
Definition int_mul (n : Z) (x : float) : option float :=
  a ← float_of_int n; Some (a * x)%float.

(** [int(x)]: truncation toward zero; raises on infinities and NaN. *)
Definition int_of_float (x : float) : option Z :=
  match Prim2SF x with
  | SpecFloat.S754_zero _ => Some 0
  | SpecFloat.S754_finite s m e =>
      let a := if 0 <=? e then Z.shiftl (Z.pos m) e else Z.shiftr (Z.pos m) (- e) in
      Some (if s then - a else a)
  | _ => None
  end.

(** [min(a, b)]: the first argument unless the second is smaller. *)
Definition min (a b : float) : float :=
  if PrimFloat.ltb b a then b else a.

(** The exact rational value of a finite float. *)
Definition to_Q (x : float) : option Q :=
  match Prim2SF x with
  | SpecFloat.S754_zero _ => Some 0%Q
  | SpecFloat.S754_finite s m e =>
      let a := if 0 <=? e then inject_Z (Z.shiftl (Z.pos m) e)
               else Qmake (Z.pos m) (Pos.shiftl 1 (Z.to_N (- e))) in
      Some (if s then Qopp a else a)
  | _ => None
  end.

End Py.

(** ** Engine adapter for Coqui TTS: style parameters *)

Module CoquiTTSEngine.

(** The local [intensity_scale] of [_get_style_params]:
    [0.5 + (intensity / 100.0)]. *)
Definition intensity_scale (intensity : Z) : option float :=
  q ← Py.int_truediv intensity 100%float;
  Some (0.5 + q)%float.

(** The dict display [style_configs]: every entry is evaluated, whatever
    the requested style, so the division of the "somber" entry can raise
    for every style. *)
Definition style_configs (intensity_scale : float)
  : option (gmap string (gmap string float)) :=
  somber_speed ← Py.truediv 0.8%float intensity_scale;
  Some (<["neutral" := ∅]>
       (<["enthusiastic" := {["speed" := (1.1 * intensity_scale)%float]}]>
       (<["somber" := {["speed" := somber_speed]}]>
       (<["confident" := {["speed" := (1.0 * intensity_scale)%float]}]>
       (<["authoritative" := {["speed" := (0.9 * intensity_scale)%float]}]>
        ∅))))).

(** [_get_style_params(style, intensity)]: [style_configs.get(style, {})]. *)
Definition _get_style_params (style : string) (intensity : Z)
  : option (gmap string float) :=
  s ← intensity_scale intensity;
  configs ← style_configs s;
  Some (default ∅ (configs !! style)).

End CoquiTTSEngine.

(** ** Engine adapter for pyttsx3: style parameters *)

Module PyttsxEngine.

(** The properties of the wrapped pyttsx3 engine object that the adapter
    reads and writes. *)
Record props := Props {
  rate : Z;
  volume : float;
  voice : string
}.

Record style_config := StyleConfig {
  rate_mult : float;
  volume_mult : float
}.

(** The local [intensity_factor] of [_apply_style]. *)
Definition intensity_factor (intensity : Z) : option float :=
  q ← Py.int_truediv intensity 100%float;
  Some (0.5 + q)%float.

Definition neutral_config : style_config := StyleConfig 1.0 1.0.

Definition style_configs : gmap string style_config :=
  <["neutral" := neutral_config]>
  (<["enthusiastic" := StyleConfig 1.3 1.2]>
  (<["somber" := StyleConfig 0.7 0.8]>
  (<["confident" := StyleConfig 1.1 1.1]>
  (<["authoritative" := StyleConfig 0.9 1.0]>
   ∅)))).

(** [_apply_style(style, intensity)]: reads the engine's rate and volume,
    scales them and writes them back. [None] when a step raises (nothing
    has been written then: both [setProperty] calls come last). *)
Definition _apply_style (style : string) (intensity : Z) (p : props)
  : option props :=
  let base_rate := rate p in
  let base_volume := volume p in
  f ← intensity_factor intensity;
  neutral ← style_configs !! "neutral";
  let config := default neutral (style_configs !! style) in
  r ← Py.int_mul base_rate (rate_mult config);
  new_rate ← Py.int_of_float (r * f)%float;
  let new_volume := Py.min 1.0%float (base_volume * volume_mult config * f)%float in
  Some {| rate := new_rate; volume := new_volume; voice := voice p |}.

End PyttsxEngine.

(** ** The world the adapters act on *)

(** A text is a sequence of Unicode code points. *)
Definition text : Type := list N.

(** The two adapter objects a coordinator holds. [primary] and [fallback]
    refer to them by identity, and so does the comparison
    [selected_engine == self.primary]. *)
Inductive engine_id := Coqui | Pyttsx.

#[global] Instance engine_id_eq_dec : EqDecision engine_id.
Proof. solve_decision. Defined.

(** The keyword arguments the request boundary passes on to the adapters. *)
Record synth_kwargs := Kwargs {
  kw_style : string;
  kw_intensity : Z;
  kw_voice : option string;
  kw_speed : option float
}.

(** A regular file: its size in bytes and its modification time. Times are
    integers (microseconds, the resolution of [datetime]). *)
Record file_info := FileInfo {
  st_size : Z;
  st_mtime : Z
}.

(** The state outside the program: the regular files that exist (by path),
    the properties of the pyttsx3 engine object, and (as an observation,
    never read by the program) the adapters whose [synthesize] has been
    entered, oldest first. *)
Record world := World {
  files : gmap string file_info;
  pyttsx_props : PyttsxEngine.props;
  calls : list engine_id
}.

Definition log_call (e : engine_id) (w : world) : world :=
  {| files := files w; pyttsx_props := pyttsx_props w; calls := calls w ++ [e] |}.

Definition set_files (fs : gmap string file_info) (w : world) : world :=
  {| files := fs; pyttsx_props := pyttsx_props w; calls := calls w |}.

Definition set_props (p : PyttsxEngine.props) (w : world) : world :=
  {| files := files w; pyttsx_props := p; calls := calls w |}.

(** What lies outside the program. For the speech libraries: whether the call
    returned normally ([false] = it raised) and the files that exist
    afterwards. For the operating system: whether the call succeeded. *)
Record externals := Externals {
  (* Coqui: [tts.tts_to_file(text=, file_path=, **style_params)] *)
  tts_to_file : text → string → gmap string float → world → bool * gmap string file_info;
  (* pyttsx3: [engine.save_to_file(text, path); engine.runAndWait()] *)
  save_to_file_and_run : text → string → world → bool * gmap string file_info;
  (* the adapter's [_select_voice(voice)], left open: it matches the token
     against the voices the pyttsx3 engine enumerates and may set the
     [voice] property; [None] when it raises *)
  _select_voice : string → PyttsxEngine.props → option PyttsxEngine.props;
  (* [output_path.parent.mkdir(parents=True, exist_ok=True)] went through *)
  mkdir_parent_ok : string → gmap string file_info → bool;
  (* [output_path.touch()] is permitted *)
  touch_ok : string → gmap string file_info → bool;
  (* [Path("static/audio").exists()] *)
  audio_dir_exists : gmap string file_info → bool
}.

Section Adapters.

Variable X : externals.

(** [CoquiTTSEngine.synthesize] *)
Definition coqui_synthesize (available : bool) (t : text) (output_path : string)
    (kw : synth_kwargs) (w : world) : bool * world :=
  let w := log_call Coqui w in
  if negb available then (false, w)
  else
    match CoquiTTSEngine._get_style_params (kw_style kw) (kw_intensity kw) with
    | None => (false, w)
    | Some style_params =>
        let '(ok, fs) := tts_to_file X t output_path style_params w in
        (ok, set_files fs w)
    end.

(** [PyttsxEngine.synthesize] *)
Definition pyttsx_synthesize (available : bool) (t : text) (output_path : string)
    (kw : synth_kwargs) (w : world) : bool * world :=
  let w := log_call Pyttsx w in
  if negb available then (false, w)
  else
    let selected :=
      match kw_voice kw with
      | Some v => _select_voice X v (pyttsx_props w)
      | None => Some (pyttsx_props w)
      end in
    match selected with
    | None => (false, w)
    | Some p1 =>
        let w1 := set_props p1 w in
        match PyttsxEngine._apply_style (kw_style kw) (kw_intensity kw) p1 with
        | None => (false, w1)
        | Some p2 =>
            let w2 := set_props p2 w1 in
            let '(ok, fs) := save_to_file_and_run X t output_path w2 in
            (ok, set_files fs w2)
        end
    end.

End Adapters.

(** ** The dual-engine coordinator *)

Module DualTTSSystem.

Record t := Make {
  coqui_available : bool;
  pyttsx_available : bool;
  primary : engine_id;
  fallback : option engine_id
}.

(** [__init__]: the two flags are what probing the libraries gave.
    [None] is [sys.exit(1)]. *)
Definition __init__ (coqui_ok pyttsx_ok : bool) : option t :=
  if coqui_ok then
    Some {| coqui_available := coqui_ok; pyttsx_available := pyttsx_ok;
            primary := Coqui; fallback := Some Pyttsx |}
  else if pyttsx_ok then
    Some {| coqui_available := coqui_ok; pyttsx_available := pyttsx_ok;
            primary := Pyttsx; fallback := None |}
  else None.

Definition available (sys : t) (e : engine_id) : bool :=
  match e with Coqui => coqui_available sys | Pyttsx => pyttsx_available sys end.

(** The local [selected_engine] of [synthesize]; [None] for an unknown
    selector. *)
Definition selected_engine (sys : t) (engine : string) : option engine_id :=
  if decide (engine = "auto") then Some (primary sys)
  else if decide (engine = "coqui") then
    if negb (coqui_available sys) then Some Pyttsx else Some Coqui
  else if decide (engine = "pyttsx3") then Some Pyttsx
  else None.

Section Synthesize.

Variable X : externals.

(** [e.synthesize(text, output_path, **kwargs)] on an adapter object. *)
Definition engine_synthesize (sys : t) (e : engine_id)
  : text → string → synth_kwargs → world → bool * world :=
  match e with
  | Coqui => coqui_synthesize X (coqui_available sys)
  | Pyttsx => pyttsx_synthesize X (pyttsx_available sys)
  end.

(** [synthesize(text, output_path, engine, **kwargs)] *)
Definition synthesize (sys : t) (t : text) (output_path : string)
    (engine : string) (kw : synth_kwargs) (w : world) : bool * world :=
  match selected_engine sys engine with
  | None => (false, w)
  | Some selected =>
      let '(success, w1) := engine_synthesize sys selected t output_path kw w in
      match fallback sys with
      | Some fb =>
          if negb success && bool_decide (selected = primary sys)
          then engine_synthesize sys fb t output_path kw w1
          else (success, w1)
      | None => (success, w1)
      end
  end.

End Synthesize.

End DualTTSSystem.

(** ** Python text operations *)

(** [str.isspace] on one character: the Unicode whitespace code points. *)
Definition isspace (c : N) : bool :=
  ((9 <=? c) && (c <=? 13) || (28 <=? c) && (c <=? 32)
   || (c =? 0x85) || (c =? 0xA0) || (c =? 0x1680)
   || (0x2000 <=? c) && (c <=? 0x200A)
   || (c =? 0x2028) || (c =? 0x2029) || (c =? 0x202F) || (c =? 0x205F)
   || (c =? 0x3000))%N.

Fixpoint lstrip (t : text) : text :=
  match t with
  | c :: t' => if isspace c then lstrip t' else t
  | [] => []
  end.

Definition rstrip (t : text) : text := rev (lstrip (rev t)).

(** [text.strip()] *)
Definition strip (t : text) : text := rstrip (lstrip t).

(** Truth value of a [str]: non-empty. *)
Definition truthy (t : text) : bool :=
  match t with [] => false | _ => true end.

(** ** Voice selection and voice listing ([PyttsxEngine], [solution.py]) *)

Module Voices.

(** An attribute of a voice object as [getattr] finds it: missing, [None],
    or a [str]. *)
Inductive attribute := Absent | IsNone | Str (s : string).

(** A voice object of the pyttsx3 engine. *)
Record voice := Voice {
  id : string;
  name : attribute;
  languages : option (list string)
}.

(** [needle in hay] on [str]. *)
Fixpoint contains (needle hay : string) : bool :=
  String.prefix needle hay
  || match hay with
     | EmptyString => false
     | String _ hay' => contains needle hay'
     end.

Definition female_words : list string := ["female"; "woman"; "wanita"; "perempuan"].

Definition male_words : list string := ["male"; "man"; "pria"; "laki-laki"].

Definition female_indicators : list string :=
  ["zira"; "hazel"; "susan"; "anna"; "helena"; "sabina"; "katja";
   "female"; "woman"; "girl"; "lady"; "ms"; "miss"; "mrs";
   "f+"; "+f"; "(f)"; "[f]"; "fem"].

Definition male_indicators : list string :=
  ["david"; "mark"; "richard"; "george"; "james"; "paul";
   "male"; "man"; "boy"; "gentleman"; "mr"; "mister";
   "m+"; "+m"; "(m)"; "[m]"; "masc"].

(** [any(indicator in name for indicator in indicators)] *)
Definition any_in (indicators : list string) (name : string) : bool :=
  existsb (λ indicator, contains indicator name) indicators.

Definition set_voice (voice_id : string) (p : PyttsxEngine.props) : PyttsxEngine.props :=
  {| PyttsxEngine.rate := PyttsxEngine.rate p;
     PyttsxEngine.volume := PyttsxEngine.volume p;
     PyttsxEngine.voice := voice_id |}.

(** One entry of [list_voices]. *)
Record voice_info := VoiceInfo {
  vi_index : nat;
  vi_name : string;
  vi_id : string;
  vi_languages : list string;
  vi_gender : string
}.

Section Selection.

(** [str.lower] and [int] on a [str] ([None]: [ValueError]) are left open. *)
Variable lower : string → string.
Variable parse_int : string → option Z.

(** [getattr(voice, 'name', default).lower()]; [None]: the attribute is
    [None] and [.lower()] raises. *)
Definition name_lower (dflt : string) (v : voice) : option string :=
  match name v with
  | Absent => Some (lower dflt)
  | IsNone => None
  | Str s => Some (lower s)
  end.

(** The loop of [_find_female_voice] and [_find_male_voice]: the first
    voice whose lowered name holds an indicator. Outer [None]: raised. *)
Fixpoint first_indicated (indicators : list string) (voices : list voice)
  : option (option voice) :=
  match voices with
  | [] => Some None
  | v :: voices' =>
      n ← name_lower "" v;
      if any_in indicators n then Some (Some v)
      else first_indicated indicators voices'
  end.

(** [_find_female_voice(voices)] *)
Definition _find_female_voice (voices : list voice) : option (option voice) :=
  found ← first_indicated female_indicators voices;
  Some (match found with
        | Some v => Some v
        | None => head voices
        end).

(** [_find_male_voice(voices)] *)
Definition _find_male_voice (voices : list voice) : option (option voice) :=
  found ← first_indicated male_indicators voices;
  Some (match found with
        | Some v => Some v
        | None =>
            match voices with
            | _ :: v1 :: _ => Some v1
            | [v0] => Some v0
            | [] => None
            end
        end).

(** The last loop of [_select_voice]: the first voice whose lowered name
    holds the lowered query. *)
Fixpoint by_name (q : string) (voices : list voice) (p : PyttsxEngine.props)
  : option PyttsxEngine.props :=
  match voices with
  | [] => Some p
  | v :: voices' =>
      n ← name_lower "" v;
      if contains q n then Some (set_voice (id v) p)
      else by_name q voices' p
  end.

(** The index selection of [_select_voice], then the name matching. *)
Definition by_index_or_name (voice_query : string) (voices : list voice)
    (p : PyttsxEngine.props) : option PyttsxEngine.props :=
  let otherwise := by_name (lower voice_query) voices p in
  match parse_int voice_query with
  | Some idx =>
      if (0 <=? idx) && (idx <? Z.of_nat (length voices)) then
        match voices !! Z.to_nat idx with
        | Some v => Some (set_voice (id v) p)
        | None => otherwise
        end
      else otherwise
  | None => otherwise
  end.

(** [_select_voice(voice_query)] on the voices the engine enumerates.
    [None]: it raised. *)
Definition _select_voice (voices : list voice) (voice_query : string)
    (p : PyttsxEngine.props) : option PyttsxEngine.props :=
  if bool_decide (lower voice_query ∈ female_words) then
    female_voice ← _find_female_voice voices;
    match female_voice with
    | Some v => Some (set_voice (id v) p)
    | None => by_index_or_name voice_query voices p
    end
  else if bool_decide (lower voice_query ∈ male_words) then
    male_voice ← _find_male_voice voices;
    match male_voice with
    | Some v => Some (set_voice (id v) p)
    | None => by_index_or_name voice_query voices p
    end
  else by_index_or_name voice_query voices p.

(** [_detect_gender(voice_name)] *)
Definition _detect_gender (voice_name : string) : string :=
  let name_lower := lower voice_name in
  if any_in female_indicators name_lower then "female"
  else if any_in male_indicators name_lower then "male"
  else "unknown".

(** The loop of [list_voices], from index [i] on. [None]: a name is [None]
    and [_detect_gender] raises on it. *)
Fixpoint list_from (i : nat) (voices : list voice) : option (list voice_info) :=
  match voices with
  | [] => Some []
  | v :: voices' =>
      n ← match name v with
          | Absent => Some "Unknown"
          | IsNone => None
          | Str s => Some s
          end;
      let lang := default ["Unknown"] (languages v) in
      let gender := _detect_gender n in
      rest ← list_from (S i) voices';
      Some ({| vi_index := i; vi_name := n; vi_id := id v;
               vi_languages := lang; vi_gender := gender |} :: rest)
  end.

(** [list_voices()] *)
Definition list_voices (available : bool) (voices : list voice)
  : option (list voice_info) :=
  if negb available then Some [] else list_from 0 voices.

End Selection.

End Voices.

(** ** Command-line entry point ([solution.py]) *)

Module CLI.

(** The [Namespace] that [argparse] returns. *)
Record args := Args {
  text_arg : option text;
  output : option string;
  style : string;
  intensity : Z;
  engine : string;
  voice : option string;
  list_voices : bool;
  status : bool;
  verbose : bool
}.

Section Main.

Variable X : externals.

(** [str.lower] is left open; [voices] are the voices the pyttsx3 engine
    enumerates. *)
Variable lower : string → string.
Variable voices : list Voices.voice.

(** [validate_inputs(text, output_path)]. [None]: the [mkdir] outside
    the [try] raised. [now] is the clock at the call of [touch]. *)
Definition validate_inputs (t : text) (output_path : string) (now : Z)
    (w : world) : option bool * world :=
  if negb (truthy (strip t)) then (Some false, w)
  else if negb (mkdir_parent_ok X output_path (files w)) then (None, w)
  else if touch_ok X output_path (files w) then
    let info :=
      match files w !! output_path with
      | Some i => {| st_size := st_size i; st_mtime := now |}
      | None => {| st_size := 0; st_mtime := now |}
      end in
    (Some true, set_files (<[output_path := info]> (files w)) w)
  else (Some false, w).

(** [main()] after [parser.parse_args()], as the exit status of the
    process: 2 is [parser.error], 1 after [sys.exit(1)], after
    [return 1] and after an exception nobody catches, as the one that
    [tts_system.pyttsx.list_voices()] raises. The two flags are what
    probing the libraries gives. *)
Definition main (a : args) (coqui_ok pyttsx_ok : bool) (now : Z)
    (w : world) : Z * world :=
  match DualTTSSystem.__init__ coqui_ok pyttsx_ok with
  | None => (1, w)
  | Some tts_system =>
      if status a then (0, w)
      else if list_voices a then
        match Voices.list_voices lower
                (DualTTSSystem.pyttsx_available tts_system) voices with
        | Some _ => (0, w)
        | None => (1, w)
        end
      else
        match text_arg a, output a with
        | Some t, Some out =>
            if negb (truthy t) || bool_decide (out = "") then (2, w)
            else if negb ((0 <=? intensity a) && (intensity a <=? 100)) then (2, w)
            else
              match validate_inputs t out now w with
              | (None, w1) => (1, w1)
              | (Some false, w1) => (1, w1)
              | (Some true, w1) =>
                  let kw := {| kw_style := style a; kw_intensity := intensity a;
                               kw_voice := voice a; kw_speed := None |} in
                  let '(success, w2) :=
                    DualTTSSystem.synthesize X tts_system t out (engine a) kw w1 in
                  (if success then 0 else 1, w2)
              end
        | _, _ => (2, w)
        end
  end.

End Main.

End CLI.

(** ** HTTP request boundary ([application/app.py]) *)

Record TTSRequest := MkRequest {
  req_text : text;
  req_style : string;
  req_intensity : Z;
  req_engine : string;
  req_voice : option string;
  req_speed : option float
}.

Record TTSResponse := MkResponse {
  success : bool;
  message : string;
  audio_url : option string;
  task_id : option string;
  processing_time : option float
}.

(** Exceptions of the handlers. The detail of a re-raised exception is
    [str(e)] of the one caught, kept as it is. *)
Inductive exception :=
| HTTPException (status_code : Z) (d : detail)
| OSError
| KeyError (key : string)
with detail :=
| Literal (s : string)
| StrOf (e : exception).

Inductive outcome (A : Type) :=
| Return (r : A)
| Raise (e : exception).
Arguments Return {A} r.
Arguments Raise {A} e.

Definition kwargs_of (r : TTSRequest) : synth_kwargs :=
  {| kw_style := req_style r; kw_intensity := req_intensity r;
     kw_voice := req_voice r; kw_speed := req_speed r |}.

Module App.

Inductive task_status := pending | processing | completed | failed.

#[global] Instance task_status_eq_dec : EqDecision task_status.
Proof. solve_decision. Defined.

Record task_result := TaskResult {
  result_audio_url : string;
  result_processing_time : float;
  result_file_size : Z
}.

(** A value of [task_storage]: the dict of one background task. The keys
    "result" and "error" are absent until the task ends. *)
Record task := Task {
  status : task_status;
  progress : Z;
  created_at : Z;
  request : TTSRequest;
  result : option task_result;
  error : option detail
}.

(** The response model of [GET /api/task/{task_id}]. *)
Record TaskStatus := MkTaskStatus {
  ts_task_id : string;
  ts_status : task_status;
  ts_progress : Z;
  ts_result : option task_result;
  ts_error : option detail
}.

(** The module-level state of the application and the world around it. *)
Record state := State {
  task_storage : gmap string task;
  request_counter : Z;
  env : world
}.

Definition count_request (st : state) : state :=
  {| task_storage := task_storage st;
     request_counter := request_counter st + 1;
     env := env st |}.

Definition set_env (w : world) (st : state) : state :=
  {| task_storage := task_storage st;
     request_counter := request_counter st;
     env := w |}.

Definition set_storage (m : gmap string task) (st : state) : state :=
  {| task_storage := m;
     request_counter := request_counter st;
     env := env st |}.

(** [task_storage[task_id][...] = ...] and [task_storage[task_id].update]:
    [None] is the [KeyError] of a missing [task_id]. *)
Definition update_task (task_id : string) (f : task → task) (st : state)
  : option state :=
  t ← task_storage st !! task_id;
  Some (set_storage (<[task_id := f t]> (task_storage st)) st).

Definition set_status (s : task_status) (t : task) : task :=
  {| status := s; progress := progress t; created_at := created_at t;
     request := request t; result := result t; error := error t |}.

Definition set_progress (p : Z) (t : task) : task :=
  {| status := status t; progress := p; created_at := created_at t;
     request := request t; result := result t; error := error t |}.

Definition complete (r : task_result) (t : task) : task :=
  {| status := completed; progress := 100; created_at := created_at t;
     request := request t; result := Some r; error := error t |}.

Definition fail (d : detail) (t : task) : task :=
  {| status := failed; progress := 100; created_at := created_at t;
     request := request t; result := result t; error := Some d |}.

(** Where a run of [process_async_synthesis] stands. *)
Inductive job_pc :=
| AtStart                       (* before [status = "processing"] *)
| StatusWritten                 (* before [progress = 10] *)
| Progress10                    (* before the file name, [mkdir], [progress = 30] *)
| Progress30 (filename : string)       (* before [tts_system.synthesize] *)
| Synthesized (filename : string) (ok : bool) (elapsed : float)
                                (* before the final [update] *)
| Handler (e : exception)       (* in the [except] clause *)
| Finished
| Escaped (e : exception).      (* the [except] clause raised itself *)

Definition one_hour : Z := 3600 * 1000000.

(** The files [Path("static/audio").glob("*.wav")] yields: directly in
    the directory, name ending in [.wav]. *)
Definition is_audio_wav (path : string) : bool :=
  let dir := "static/audio/" in
  let name := String.substring (String.length dir) (String.length path - String.length dir) path in
  String.prefix dir path
  && bool_decide (String.index 0 "/" name = None)
  && bool_decide (String.substring (String.length name - 4) 4 name = ".wav").

Inductive cleanup_response :=
| NoAudioDirectory
| CleanedUp (deleted_files old_tasks : nat).

Section Handlers.

Variable X : externals.
Variable tts_system : DualTTSSystem.t.

(** [POST /api/synthesize]. The time stamp, the random part of the file
    name and the measured duration come from outside. *)
Definition synthesize_speech (request : TTSRequest)
    (timestamp uuid8 : string) (elapsed : float) (st : state)
  : outcome TTSResponse * state :=
  let st := count_request st in
  let reraise e := Raise (HTTPException 500 (StrOf e)) in
  if negb (truthy (strip (req_text request))) then
    (reraise (HTTPException 400 (Literal "Text cannot be empty")), st)
  else if (1000 <? length (req_text request))%nat then
    (reraise (HTTPException 400 (Literal "Text too long (max 1000 characters)")), st)
  else
    let filename := "tts_" +:+ timestamp +:+ "_" +:+ uuid8 +:+ ".wav" in
    let output_path := "static/audio/" +:+ filename in
    if negb (mkdir_parent_ok X output_path (files (env st))) then
      (reraise OSError, st)
    else
      let '(ok, w) :=
        DualTTSSystem.synthesize X tts_system (req_text request) output_path
          (req_engine request) (kwargs_of request) (env st) in
      let st := set_env w st in
      if ok && bool_decide (is_Some (files w !! output_path)) then
        (Return {| success := true;
                   message := "Speech synthesized successfully";
                   audio_url := Some ("/static/audio/" +:+ filename);
                   task_id := None;
                   processing_time := Some elapsed |}, st)
      else
        (reraise (HTTPException 500 (Literal "Speech synthesis failed")), st).

(** [POST /api/synthesize-async]. [uuid] is the fresh [uuid.uuid4()],
    [now] the clock. On [Return] the framework has been handed one
    background task for [uuid]. *)
Definition synthesize_speech_async (request : TTSRequest)
    (uuid : string) (now : Z) (st : state)
  : outcome TTSResponse * state :=
  let st := count_request st in
  if negb (truthy (strip (req_text request))) then
    (Raise (HTTPException 500 (StrOf (HTTPException 400 (Literal "Text cannot be empty")))), st)
  else
    let t := {| status := pending; progress := 0; created_at := now;
                request := request; result := None; error := None |} in
    (Return {| success := true;
               message := "Task queued for processing";
               audio_url := None;
               task_id := Some uuid;
               processing_time := None |},
     set_storage (<[uuid := t]> (task_storage st)) st).

(** [GET /api/task/{task_id}] *)
Definition get_task_status (task_id : string) (st : state) : outcome TaskStatus :=
  match task_storage st !! task_id with
  | None => Raise (HTTPException 404 (Literal "Task not found"))
  | Some t =>
      Return {| ts_task_id := task_id; ts_status := status t;
                ts_progress := progress t; ts_result := result t;
                ts_error := error t |}
  end.

(** One statement-sized step of [process_async_synthesis(task_id,
    request)]. An exception inside the [try] leads to [Handler]. *)
Definition job_step (task_id : string) (request : TTSRequest)
    (timestamp : string) (elapsed : float) (pc : job_pc) (st : state)
  : job_pc * state :=
  let or_raise (next : job_pc) (r : option state) :=
    match r with
    | Some st' => (next, st')
    | None => (Handler (KeyError task_id), st)
    end in
  match pc with
  | AtStart =>
      or_raise StatusWritten (update_task task_id (set_status processing) st)
  | StatusWritten =>
      or_raise Progress10 (update_task task_id (set_progress 10) st)
  | Progress10 =>
      let filename :=
        "tts_async_" +:+ timestamp +:+ "_" +:+ String.substring 0 8 task_id +:+ ".wav" in
      let output_path := "static/audio/" +:+ filename in
      if negb (mkdir_parent_ok X output_path (files (env st))) then
        (Handler OSError, st)
      else
        or_raise (Progress30 filename) (update_task task_id (set_progress 30) st)
  | Progress30 filename =>
      let output_path := "static/audio/" +:+ filename in
      let '(ok, w) :=
        DualTTSSystem.synthesize X tts_system (req_text request) output_path
          (req_engine request) (kwargs_of request) (env st) in
      (Synthesized filename ok elapsed, set_env w st)
  | Synthesized filename ok elapsed =>
      let output_path := "static/audio/" +:+ filename in
      match ok, files (env st) !! output_path with
      | true, Some info =>
          let r := {| result_audio_url := "/static/audio/" +:+ filename;
                      result_processing_time := elapsed;
                      result_file_size := st_size info |} in
          or_raise Finished (update_task task_id (complete r) st)
      | _, _ =>
          or_raise Finished
            (update_task task_id (fail (Literal "Speech synthesis failed")) st)
      end
  | Handler e =>
      match update_task task_id (fail (StrOf e)) st with
      | Some st' => (Finished, st')
      | None => (Escaped (KeyError task_id), st)
      end
  | Finished => (Finished, st)
  | Escaped e => (Escaped e, st)
  end.

(** [DELETE /api/cleanup] at time [now]; [stat] and [unlink] on the files of
    the directory are taken to succeed. *)
Definition cleanup_old_files (now : Z) (st : state) : cleanup_response * state :=
  let fs := files (env st) in
  if negb (audio_dir_exists X fs) then (NoAudioDirectory, st)
  else
    let cutoff_time := now - one_hour in
    let stale (kv : string * file_info) :=
      is_audio_wav kv.1 && (st_mtime kv.2 <? cutoff_time) in
    let old (kv : string * task) := created_at kv.2 <? cutoff_time in
    let deleted_count := size (filter (λ kv, stale kv = true) fs) in
    let old_tasks := size (filter (λ kv, old kv = true) (task_storage st)) in
    (CleanedUp deleted_count old_tasks,
     set_storage (filter (λ kv, old kv = false) (task_storage st))
       (set_env (set_files (filter (λ kv, stale kv = false) fs) (env st)) st)).

(** *** The service as a transition system

    The framework runs a background task after the response has been
    sent. Its interleaving with the other requests is left open: a
    schedule decides, statement by statement. (A run of the task that
    is never interrupted is one of the schedules.) *)

Record job := Job {
  job_request : TTSRequest;
  job_at : job_pc
}.

Record system := System {
  app : state;
  jobs : gmap string job     (* the background tasks handed over, by task id *)
}.

(** What can happen next. The endpoints that do not touch [task_storage]
    and are no part of a stated property (status, voices, styles, the voice
    preview) are left out. *)
Inductive command :=
| DoSync (request : TTSRequest) (timestamp uuid8 : string) (elapsed : float)
| DoAsync (request : TTSRequest) (uuid : string) (now : Z)
| DoJobStep (task_id : string) (timestamp : string) (elapsed : float)
| DoPoll (task_id : string)
| DoCleanup (now : Z).

Inductive observation :=
| SawResponse (r : outcome TTSResponse)
| SawTask (task_id : string) (r : outcome TaskStatus)
| SawCleanup (r : cleanup_response)
| SawNothing.

Definition exec (c : command) (s : system) : observation * system :=
  match c with
  | DoSync request timestamp uuid8 elapsed =>
      let '(r, st) := synthesize_speech request timestamp uuid8 elapsed (app s) in
      (SawResponse r, {| app := st; jobs := jobs s |})
  | DoAsync request uuid now =>
      let '(r, st) := synthesize_speech_async request uuid now (app s) in
      (SawResponse r,
       {| app := st;
          jobs := match r with
                  | Return _ => <[uuid := Job request AtStart]> (jobs s)
                  | Raise _ => jobs s
                  end |})
  | DoJobStep task_id timestamp elapsed =>
      match jobs s !! task_id with
      | Some j =>
          let '(pc, st) :=
            job_step task_id (job_request j) timestamp elapsed (job_at j) (app s) in
          (SawNothing,
           {| app := st; jobs := <[task_id := Job (job_request j) pc]> (jobs s) |})
      | None => (SawNothing, s)
      end
  | DoPoll task_id => (SawTask task_id (get_task_status task_id (app s)), s)
  | DoCleanup now =>
      let '(r, st) := cleanup_old_files now (app s) in
      (SawCleanup r, {| app := st; jobs := jobs s |})
  end.

(** What each command shows and the state it leaves, in order. *)
Fixpoint trace (cmds : list command) (s : system) : list (observation * system) :=
  match cmds with
  | [] => []
  | c :: cmds' => let r := exec c s in r :: trace cmds' r.2
  end.

Definition init (w : world) : system :=
  {| app := {| task_storage := ∅; request_counter := 0; env := w |};
     jobs := ∅ |}.

End Handlers.

(** The task identifiers drawn by [uuid.uuid4()] in a schedule: one for
    each asynchronous request that passes validation. *)
Fixpoint drawn_ids (cmds : list command) : list string :=
  match cmds with
  | [] => []
  | DoAsync request uuid _ :: cmds' =>
      if truthy (strip (req_text request)) then uuid :: drawn_ids cmds'
      else drawn_ids cmds'
  | _ :: cmds' => drawn_ids cmds'
  end.

(** The order on statuses: pending < processing < {completed, failed}. *)
Definition rank (s : task_status) : nat :=
  match s with pending => 0 | processing => 1 | completed | failed => 2 end.

Definition status_le (a b : task_status) : Prop :=
  a = b ∨ (rank a < rank b)%nat.

Definition status_of (task_id : string) (s : system) : option task_status :=
  status <$> task_storage (app s) !! task_id.

(** The values the status of one task takes: a value is recorded when it
    differs from the latest one recorded. *)
Definition observe (h : list task_status) (o : option task_status)
  : list task_status :=
  match o with
  | Some x => if decide (last h = Some x) then h else h ++ [x]
  | None => h
  end.

Definition history (task_id : string) (tr : list (observation * system))
  : list task_status :=
  foldl observe [] (map (λ os, status_of task_id os.2) tr).

(** The statuses that polling one task returned, in order. *)
Definition polled (task_id : string) (tr : list (observation * system))
  : list task_status :=
  omap (λ os : observation * system,
          match os.1 with
          | SawTask id (Return ts) =>
              if decide (id = task_id) then Some (ts_status ts) else None
          | _ => None
          end) tr.

End App.

(** ** Concrete surroundings, for evaluating the program *)

(** Speech libraries that raise at once and write nothing; an operating
    system that permits everything. *)
Definition failing_libraries : externals :=
  {| tts_to_file := λ _ _ _ w, (false, files w);
     save_to_file_and_run := λ _ _ w, (false, files w);
     _select_voice := λ _ p, Some p;
     mkdir_parent_ok := λ _ _, true;
     touch_ok := λ _ _, true;
     audio_dir_exists := λ _, true |}.

(** Speech libraries that write a 44-byte file at the destination. *)
Definition working_libraries : externals :=
  {| tts_to_file := λ _ path _ w, (true, <[path := FileInfo 44 0]> (files w));
     save_to_file_and_run := λ _ path w, (true, <[path := FileInfo 44 0]> (files w));
     _select_voice := λ _ p, Some p;
     mkdir_parent_ok := λ _ _, true;
     touch_ok := λ _ _, true;
     audio_dir_exists := λ _, true |}.

Definition empty_world : world :=
  {| files := ∅; pyttsx_props := PyttsxEngine.Props 200 1.0 ""; calls := [] |}.

(** "Hello" *)
Definition hello : text := [72; 101; 108; 108; 111]%N.

Definition default_kwargs : synth_kwargs :=
  {| kw_style := "neutral"; kw_intensity := 50; kw_voice := None; kw_speed := None |}.

(** The [name] attribute of an adapter, which is also the selector that
    requests it. *)
Definition name (e : engine_id) : string :=
  match e with Coqui => "coqui" | Pyttsx => "pyttsx3" end.

(** ** Notions of the specification *)

(** The closed set of styles: the keys of both [style_configs] tables, which
    are also the [choices] of [--style]. *)
Definition style_enumeration : list string :=
  ["neutral"; "enthusiastic"; "somber"; "confident"; "authoritative"].

(** The affine map that takes 0..100 onto 0.5..1.5, in exact arithmetic. *)
Definition rescaled (intensity : Z) : Q := (1 # 2) + (intensity # 100).

(** A float lies within one unit in the last place (2^-52, for values
    between 1 and 2) of a rational. *)
Definition close_to (m : float) (q : Q) : bool :=
  match Py.to_Q m with
  | Some v => Qle_bool (Qabs (v - q)) (1 # 2 ^ 52)
  | None => false
  end.

(** The check made on each intensity of 0..100: the multiplier exists, is
    not zero and is the affine value up to rounding. *)
Definition scale_checked (i : Z) : bool :=
  match CoquiTTSEngine.intensity_scale i with
  | Some m => close_to m (rescaled i) && negb (PrimFloat.eqb m 0%float)
  | None => false
  end.

(** The base speed multipliers that the entries of Coqui's table start
    from. *)
Definition coqui_base_speed : gmap string float :=
  <["enthusiastic" := 1.1%float]>
  (<["somber" := 0.8%float]>
  (<["confident" := 1.0%float]>
  (<["authoritative" := 0.9%float]> ∅))).

(** A derived Coqui speed as the claim C6 words it: the style's base
    multiplier times the multiplier derived from the intensity. *)
Definition speed_is_product (style : string) (intensity : Z) : Prop :=
  ∃ base m params,
    coqui_base_speed !! style = Some base
    ∧ CoquiTTSEngine.intensity_scale intensity = Some m
    ∧ CoquiTTSEngine._get_style_params style intensity = Some params
    ∧ params !! "speed" = Some (base * m)%float.

(** A derived pyttsx3 volume as the claim C6 words it. *)
Definition volume_is_product (style : string) (intensity : Z)
    (p : PyttsxEngine.props) : Prop :=
  ∃ config m p',
    PyttsxEngine.style_configs !! style = Some config
    ∧ PyttsxEngine.intensity_factor intensity = Some m
    ∧ PyttsxEngine._apply_style style intensity p = Some p'
    ∧ PyttsxEngine.volume p'
      = (PyttsxEngine.volume p * PyttsxEngine.volume_mult config * m)%float.

(** A text without a character that is not whitespace: empty, or
    whitespace only. *)
Definition blank (t : text) : Prop := forallb isspace t = true.

(** Libraries that leave no file behind when they fail: a failed call leaves
    the files as they were. *)
Definition clean_on_failure (X : externals) : Prop :=
  (∀ t p params w, (tts_to_file X t p params w).1 = false →
                   (tts_to_file X t p params w).2 = files w)
  ∧ (∀ t p w, (save_to_file_and_run X t p w).1 = false →
              (save_to_file_and_run X t p w).2 = files w).

(** A request of the default shape for a text. *)
Definition request_for (t : text) (intensity : Z) : TTSRequest :=
  {| req_text := t; req_style := "neutral"; req_intensity := intensity;
     req_engine := "auto"; req_voice := None; req_speed := None |}.

Definition args_for (t : text) (out : string) (intensity : Z) : CLI.args :=
  {| CLI.text_arg := Some t; CLI.output := Some out; CLI.style := "neutral";
     CLI.intensity := intensity; CLI.engine := "auto"; CLI.voice := None;
     CLI.list_voices := false; CLI.status := false; CLI.verbose := false |}.

Definition fresh_app : App.state :=
  {| App.task_storage := ∅; App.request_counter := 0; App.env := empty_world |}.

(** A rejection by the HTTP boundary for a reason of validation, as it
    leaves the handler: re-raised with status 500 around the original 400. *)
Definition validation_error (why : string) : exception :=
  HTTPException 500 (StrOf (HTTPException 400 (Literal why))).

(** What the background task of an identifier ([None]: no task was
    handed over for it), the status stored for it ([None]: no record) and
    the history of that status have to do with each other. *)
Definition consistent (pc : option App.job_pc) (cur : option App.task_status)
    (h : list App.task_status) : Prop :=
  (cur = None ∨ cur = last h)
  ∧ match pc with
    | None => cur = None ∧ h = []
    | Some App.AtStart => h = [App.pending]
    | Some (App.StatusWritten | App.Progress10 | App.Progress30 _
           | App.Synthesized _ _ _) =>
        h = [App.pending; App.processing]
    | Some (App.Handler _) =>
        (h = [App.pending] ∧ cur = None) ∨ h = [App.pending; App.processing]
    | Some App.Finished =>
        h = [App.pending; App.processing; App.completed]
        ∨ h = [App.pending; App.processing; App.failed]
    | Some (App.Escaped _) =>
        cur = None ∧ (h = [App.pending] ∨ h = [App.pending; App.processing])
    end.

(** The places of the background task between its first write and its final
    update. *)
Definition in_try (pc : App.job_pc) : bool :=
  match pc with
  | App.StatusWritten | App.Progress10 | App.Progress30 _
  | App.Synthesized _ _ _ => true
  | _ => false
  end.

Definition task_invariant (task_id : string) (s : App.system)
    (h : list App.task_status) : Prop :=
  consistent (App.job_at <$> App.jobs s !! task_id) (App.status_of task_id s) h.

(** A schedule of one asynchronous request, polled before, during and after
    its background task. *)
Definition polling_schedule : list App.command :=
  [App.DoAsync (request_for hello 50) "0a1b2c3d-0000" 5;
   App.DoPoll "0a1b2c3d-0000";
   App.DoJobStep "0a1b2c3d-0000" "20240101_120000" 0.25%float;
   App.DoPoll "0a1b2c3d-0000";
   App.DoJobStep "0a1b2c3d-0000" "20240101_120000" 0.25%float;
   App.DoJobStep "0a1b2c3d-0000" "20240101_120000" 0.25%float;
   App.DoJobStep "0a1b2c3d-0000" "20240101_120000" 0.25%float;
   App.DoJobStep "0a1b2c3d-0000" "20240101_120000" 0.25%float;
   App.DoPoll "0a1b2c3d-0000"].

(** The same request, polled twice before its background task starts and
    once after the task has run to its end. *)
Definition skipping_schedule : list App.command :=
  [App.DoAsync (request_for hello 50) "0a1b2c3d-0000" 5;
   App.DoPoll "0a1b2c3d-0000";
   App.DoPoll "0a1b2c3d-0000";
   App.DoJobStep "0a1b2c3d-0000" "20240101_120000" 0.25%float;
   App.DoJobStep "0a1b2c3d-0000" "20240101_120000" 0.25%float;
   App.DoJobStep "0a1b2c3d-0000" "20240101_120000" 0.25%float;
   App.DoJobStep "0a1b2c3d-0000" "20240101_120000" 0.25%float;
   App.DoJobStep "0a1b2c3d-0000" "20240101_120000" 0.25%float;
   App.DoPoll "0a1b2c3d-0000"].

(** A schedule in which the same identifier is drawn twice. *)
Definition repeating_schedule : list App.command :=
  [App.DoAsync (request_for hello 50) "0a1b2c3d-0000" 5;
   App.DoJobStep "0a1b2c3d-0000" "20240101_120000" 0.25%float;
   App.DoJobStep "0a1b2c3d-0000" "20240101_120000" 0.25%float;
   App.DoJobStep "0a1b2c3d-0000" "20240101_120000" 0.25%float;
   App.DoJobStep "0a1b2c3d-0000" "20240101_120000" 0.25%float;
   App.DoJobStep "0a1b2c3d-0000" "20240101_120000" 0.25%float;
   App.DoPoll "0a1b2c3d-0000";
   App.DoAsync (request_for hello 50) "0a1b2c3d-0000" 6;
   App.DoPoll "0a1b2c3d-0000"].

(** What lies outside the program when the adapter's own [_select_voice]
    runs on the voices the engine enumerates. *)
Definition with_voices (lower : string → string) (parse_int : string → option Z)
    (voices : list Voices.voice) (X : externals) : externals :=
  {| tts_to_file := tts_to_file X;
     save_to_file_and_run := save_to_file_and_run X;
     _select_voice := Voices._select_voice lower parse_int voices;
     mkdir_parent_ok := mkdir_parent_ok X;
     touch_ok := touch_ok X;
     audio_dir_exists := audio_dir_exists X |}.

(** ** More of the coordinator and of the application *)

(** [DualTTSSystem.get_status] *)
Definition get_status (sys : DualTTSSystem.t) : gmap string bool :=
  <["coqui" := DualTTSSystem.coqui_available sys]>
  (<["pyttsx3" := DualTTSSystem.pyttsx_available sys]> ∅).

(** [DualTTSSystem.select_female_voice(engine)] *)
Definition select_female_voice (sys : DualTTSSystem.t) (engine : string)
  : option string :=
  let engine :=
    if decide (engine = "auto") then
      if DualTTSSystem.pyttsx_available sys then "pyttsx3" else "coqui"
    else engine in
  if bool_decide (engine = "pyttsx3") && DualTTSSystem.pyttsx_available sys
  then Some "female"
  else if bool_decide (engine = "coqui") && DualTTSSystem.coqui_available sys
  then Some "female"
  else None.

(** The response model of [GET /api/status]. *)
Record SystemStatus := MkSystemStatus {
  ss_coqui_available : bool;
  ss_pyttsx3_available : bool;
  default_engine : string;
  total_requests : Z;
  uptime : string
}.

(** [get_system_status()]; the formatted uptime comes from the clock. *)
Definition get_system_status (tts_system : DualTTSSystem.t) (uptime : string)
    (st : App.state) : option SystemStatus :=
  let status := get_status tts_system in
  coqui ← status !! "coqui";
  pyttsx3 ← status !! "pyttsx3";
  Some {| ss_coqui_available := coqui;
          ss_pyttsx3_available := pyttsx3;
          default_engine := if coqui then "coqui" else "pyttsx3";
          total_requests := App.request_counter st;
          uptime := uptime |}.

(** The ids of the styles [GET /api/styles] offers. *)
Definition api_style_ids : list string :=
  ["neutral"; "happy"; "sad"; "angry"; "excited"; "calm"; "dramatic"].

(** A [str] of ASCII characters as a text. *)
Definition text_of_ascii (s : string) : text :=
  Ascii.N_of_ascii <$> String.list_ascii_of_string s.

Definition preview_text : text :=
  text_of_ascii "Hello, this is a voice preview. How do you like this voice?".

Inductive preview_response :=
| PreviewOk (audio_url message : string)
| PreviewError (error : detail).

(** [POST /api/preview-voice] on a JSON object with string values.
    [preview_id] is the random part of the file name; [mkdir_ok] tells
    whether [output_path.parent.mkdir(exist_ok=True)] went through. *)
Definition preview_voice (X : externals) (tts_system : DualTTSSystem.t)
    (request : gmap string string) (preview_id : string) (mkdir_ok : bool)
    (st : App.state) : preview_response * App.state :=
  let voice_id := default "" (request !! "voice_id") in
  let engine := default "auto" (request !! "engine") in
  let output_path := "static/audio/" +:+ "preview_" +:+ preview_id +:+ ".wav" in
  if negb mkdir_ok then (PreviewError (StrOf OSError), st)
  else
    let '(ok, w) :=
      DualTTSSystem.synthesize X tts_system preview_text output_path engine
        {| kw_style := "neutral"; kw_intensity := 50;
           kw_voice := Some voice_id; kw_speed := None |} (App.env st) in
    (if ok then
       PreviewOk ("/static/audio/preview_" +:+ preview_id +:+ ".wav")
         "Voice preview generated successfully"
     else PreviewError (Literal "Failed to generate voice preview"),
     App.set_env w st).

(** A run of [process_async_synthesis] that nothing interrupts: [n]
    statement-sized steps in a row. *)
Fixpoint job_run (X : externals) (tts_system : DualTTSSystem.t) (n : nat)
    (task_id : string) (request : TTSRequest) (timestamp : string)
    (elapsed : float) (pc : App.job_pc) (st : App.state) : App.job_pc * App.state :=
  match n with
  | O => (pc, st)
  | S n' =>
      let '(pc', st') := App.job_step X tts_system task_id request timestamp elapsed pc st in
      job_run X tts_system n' task_id request timestamp elapsed pc' st'
  end.

(** The shape of a task record, and of an answer to a poll, by its status. *)
Definition shape (status : App.task_status) (progress : Z)
    (result : option App.task_result) (error : option detail) : Prop :=
  match status with
  | App.pending => progress = 0 ∧ result = None ∧ error = None
  | App.processing =>
      (progress = 0 ∨ progress = 10 ∨ progress = 30)
      ∧ result = None ∧ error = None
  | App.completed => progress = 100 ∧ is_Some result ∧ error = None
  | App.failed => progress = 100 ∧ result = None ∧ is_Some error
  end.

Definition well_formed (t : App.task) : Prop :=
  shape (App.status t) (App.progress t) (App.result t) (App.error t).

(** What the place of a background task says about its record, as long as
    the record is there. *)
Definition record_at (pc : option App.job_pc) (r : option App.task) : Prop :=
  match r with
  | None => True
  | Some t =>
      App.result t = None ∧ App.error t = None
      ∧ match pc with
        | Some App.AtStart => App.status t = App.pending ∧ App.progress t = 0
        | Some App.StatusWritten => App.status t = App.processing ∧ App.progress t = 0
        | Some App.Progress10 => App.status t = App.processing ∧ App.progress t = 10
        | Some (App.Progress30 _ | App.Synthesized _ _ _) =>
            App.status t = App.processing ∧ App.progress t = 30
        | Some (App.Handler _) =>
            App.status t = App.processing
            ∧ (App.progress t = 0 ∨ App.progress t = 10 ∨ App.progress t = 30)
        | _ => False
        end
      ∨ pc = Some App.Finished
        ∧ App.progress t = 100
        ∧ (App.status t = App.completed ∧ is_Some (App.result t) ∧ App.error t = None
           ∨ App.status t = App.failed ∧ App.result t = None ∧ is_Some (App.error t))
  end.

(** The requests an application counts in a schedule. *)
Fixpoint counted (cmds : list App.command) : Z :=
  match cmds with
  | [] => 0
  | (App.DoSync _ _ _ _ | App.DoAsync _ _ _) :: cmds' => 1 + counted cmds'
  | _ :: cmds' => counted cmds'
  end.

(** The state a schedule ends in. *)
Definition final (X : externals) (tts_system : DualTTSSystem.t)
    (cmds : list App.command) (s : App.system) : App.system :=
  foldl (λ s c, (App.exec X tts_system c s).2) s cmds.

(** [str.lower] on ASCII strings and [int] on plain decimal digits, for
    evaluating the voice selection. *)
Definition ascii_lower (s : string) : string :=
  String.string_of_list_ascii
    ((λ a, let n := Ascii.nat_of_ascii a in
           if (65 <=? n)%nat && (n <=? 90)%nat then Ascii.ascii_of_nat (n + 32) else a)
       <$> String.list_ascii_of_string s).

Definition digits_int (s : string) : option Z :=
  match s with
  | EmptyString => None
  | _ =>
      foldl (λ acc a,
               n ← acc;
               let d := Ascii.nat_of_ascii a in
               if (48 <=? d)%nat && (d <=? 57)%nat
               then Some (10 * n + Z.of_nat (d - 48)) else None)
            (Some 0) (String.list_ascii_of_string s)
  end.

(** The check made on each rate: the "neutral" row at the multiplier 1.0
    gives the rate back. *)
Definition neutral_rate_kept (rate : Z) : bool :=
  match r ← Py.int_mul rate 1.0%float; Py.int_of_float (r * 1.0)%float with
  | Some rate' => rate' =? rate
  | None => false
  end.

(** Three voices as a Windows machine has them. *)
Definition sample_voices : list Voices.voice :=
  [Voices.Voice "voice.david" (Voices.Str "microsoft david desktop") None;
   Voices.Voice "voice.zira" (Voices.Str "microsoft zira desktop") None;
   Voices.Voice "voice.generic" (Voices.Str "generic female voice") (Some ["en"])].

(** ** The voice list of the application *)

Module Api.

Import Voices.

(** One entry of [GET /api/voices]. *)
Record api_voice := ApiVoice {
  av_id : string;
  av_name : string;
  av_gender : string;
  av_language : string;
  av_language_code : string;
  av_engine : string;
  av_quality : option string;
  av_description : string
}.

Record voices_data := VoicesData {
  vd_success : bool;
  vd_pyttsx3 : list api_voice;
  vd_coqui : list api_voice
}.

Definition male_names : list string := ["david"; "mark"; "paul"; "richard"; "james"].

Definition female_names : list string :=
  ["zira"; "hazel"; "susan"; "irina"; "huihui"; "hanhan"; "helena"; "sabina"].

Section Listing.

(** [str.lower], [str.title] and [str] on an index are left open. *)
Variable lower : string → string.
Variable title : string → string.
Variable str : nat → string.

(** The gender the handler derives from a name. *)
Definition gender_of (name : string) : string :=
  if any_in male_names (lower name) then "male"
  else if any_in female_names (lower name) then "female"
  else "neutral".

(** The language the handler displays for the languages of a voice. *)
Definition lang_display (languages : list string) : string :=
  match languages with
  | lang_code :: _ =>
      if contains "ru" (lower lang_code) then "Russian"
      else if contains "zh-cn" (lower lang_code) then "Chinese (Simplified)"
      else if contains "zh-tw" (lower lang_code) then "Chinese (Taiwan)"
      else if contains "en" (lower lang_code) then "English (US)"
      else "English (US)"
  | [] => "English (US)"
  end.

(** The loop over the voices, from index [i] on. The entries are appended
    to the answer one by one: when [name.lower()] raises on a name that is
    [None], the entries made so far stay and the rest is not looked at. *)
Fixpoint entries_from (i : nat) (voices : list voice) : list api_voice :=
  match voices with
  | [] => []
  | v :: voices' =>
      let languages := default ["Unknown"] (languages v) in
      let entry (name : string) :=
        let gender := gender_of name in
        {| av_id := str i;
           av_name := name;
           av_gender := gender;
           av_language := lang_display languages;
           av_language_code := default "en-US" (head languages);
           av_engine := "pyttsx3";
           av_quality := None;
           av_description :=
             name +:+ " - " +:+ title gender +:+ " voice ("
                  +:+ lang_display languages +:+ ")" |} in
      match name v with
      | Absent => entry ("Voice " +:+ str i) :: entries_from (S i) voices'
      | IsNone => []
      | Str s => entry s :: entries_from (S i) voices'
      end
  end.

Definition coqui_entry (name gender language quality : string) : api_voice :=
  {| av_id := name;
     av_name := title name;
     av_gender := gender;
     av_language := language;
     av_language_code := "en-US";
     av_engine := "coqui";
     av_quality := Some quality;
     av_description :=
       title name +:+ " - " +:+ title gender +:+ " voice (" +:+ language
                  +:+ ", " +:+ quality +:+ " quality)" |}.

(** [get_available_voices()]; [voices] are the voices of the engine that
    [pyttsx3.init()] gives, [None] when it raises. *)
Definition get_available_voices (tts_system : DualTTSSystem.t)
    (voices : option (list voice)) : voices_data :=
  {| vd_success := true;
     vd_pyttsx3 :=
       if DualTTSSystem.pyttsx_available tts_system then
         match voices with
         | Some voices => entries_from 0 voices
         | None => []
         end
       else [];
     vd_coqui :=
       if DualTTSSystem.coqui_available tts_system then
         [coqui_entry "jenny" "female" "English (US)" "high";
          coqui_entry "ljspeech" "female" "English (US)" "high"]
       else [] |}.

End Listing.

End Api.

(** [str] on small indices, for evaluating the voice list. *)
Definition digit_str (i : nat) : string :=
  String (Ascii.ascii_of_nat (48 + i)) EmptyString.

(** * Properties *)

(** ** The coordinator *)

Section Coordinator.

Import DualTTSSystem.

Variable X : externals.

Lemma coqui_synthesize_calls av t p kw w :
  calls (coqui_synthesize X av t p kw w).2 = calls w ++ [Coqui].
Proof.
  unfold coqui_synthesize.
  destruct av; simpl; [|done].
  destruct (CoquiTTSEngine._get_style_params _ _); [|done].
  by destruct (tts_to_file X _ _ _ _).
Qed.

Lemma pyttsx_synthesize_calls av t p kw w :
  calls (pyttsx_synthesize X av t p kw w).2 = calls w ++ [Pyttsx].
Proof.
  unfold pyttsx_synthesize.
  destruct av; simpl; [|done].
  destruct (match kw_voice kw with Some v => _ | None => _ end); [|done].
  destruct (PyttsxEngine._apply_style _ _ _); [|done].
  by destruct (save_to_file_and_run X _ _ _).
Qed.

(** Entering an adapter's [synthesize] is one call, on that adapter. *)
Lemma engine_synthesize_calls sys e t p kw w :
  calls (engine_synthesize X sys e t p kw w).2 = calls w ++ [e].
Proof.
  destruct e; [apply coqui_synthesize_calls | apply pyttsx_synthesize_calls].
Qed.

(** An adapter whose availability flag is false returns false and
    touches nothing. *)
Lemma engine_synthesize_unavailable sys e t p kw w :
  available sys e = false →
  engine_synthesize X sys e t p kw w = (false, log_call e w).
Proof.
  destruct e; simpl; intros ->; done.
Qed.

Lemma selected_engine_auto sys : selected_engine sys "auto" = Some (primary sys).
Proof. done. Qed.

Lemma selected_engine_coqui sys :
  selected_engine sys "coqui"
  = Some (if coqui_available sys then Coqui else Pyttsx).
Proof. unfold selected_engine; simpl. by destruct (coqui_available sys). Qed.

Lemma selected_engine_pyttsx3 sys : selected_engine sys "pyttsx3" = Some Pyttsx.
Proof. done. Qed.

Lemma selected_engine_unknown sys engine :
  engine ≠ "auto" → engine ≠ "coqui" → engine ≠ "pyttsx3" →
  selected_engine sys engine = None.
Proof.
  intros. unfold selected_engine. by repeat case_decide.
Qed.

(** What [__init__] builds: Coqui first, with pyttsx3 behind it, or
    pyttsx3 alone. *)
Lemma init_cases coqui_ok pyttsx_ok sys :
  __init__ coqui_ok pyttsx_ok = Some sys →
  (coqui_ok = true ∧ sys = Make true pyttsx_ok Coqui (Some Pyttsx))
  ∨ (coqui_ok = false ∧ pyttsx_ok = true ∧ sys = Make false true Pyttsx None).
Proof.
  unfold __init__. destruct coqui_ok, pyttsx_ok; naive_solver.
Qed.

(** Without a fallback, or with a selected engine that is not the
    primary, the request is the one call on the selected engine. *)
Lemma synthesize_single sys t p engine kw w sel :
  selected_engine sys engine = Some sel →
  fallback sys = None ∨ sel ≠ primary sys →
  synthesize X sys t p engine kw w = engine_synthesize X sys sel t p kw w.
Proof.
  intros Hsel Hno. unfold synthesize. rewrite Hsel.
  destruct (engine_synthesize X sys sel t p kw w) as [ok w1].
  destruct (fallback sys) as [fb|]; [|done].
  destruct Hno as [?|Hne]; [done|].
  by rewrite bool_decide_eq_false_2, andb_false_r.
Qed.

(** The calls of one request: the selected engine, then at most the
    fallback. *)
Lemma synthesize_calls sys t p engine kw w :
  ∃ l, calls (synthesize X sys t p engine kw w).2 = calls w ++ l ∧ (length l ≤ 2)%nat.
Proof.
  unfold synthesize.
  destruct (selected_engine sys engine) as [sel|];
    [|exists []; rewrite app_nil_r; simpl; auto with lia].
  pose proof (engine_synthesize_calls sys sel t p kw w) as H1.
  destruct (engine_synthesize X sys sel t p kw w) as [ok w1]; simpl in H1.
  destruct (fallback sys) as [fb|]; [|exists [sel]; simpl; auto with lia].
  destruct (negb ok && bool_decide (sel = primary sys));
    [|exists [sel]; simpl; auto with lia].
  exists [sel; fb]. rewrite engine_synthesize_calls, H1, <- app_assoc.
  simpl; auto with lia.
Qed.

End Coordinator.

Import DualTTSSystem.

(** C1. When the primary engine is the selected one (by name, through
    "auto", or as the substitute) and its [synthesize] returns failure: with
    a fallback engine, the coordinator makes exactly one more call, on the
    fallback, and returns its result; without one, it reports failure after
    that single call. No request makes more than two calls. For a
    coordinator built by [__init__], "auto" and the primary's own name both
    select the primary, and the fallback is another engine. *)
Theorem fallback_once_after_primary_failure
    (X : externals) (sys : DualTTSSystem.t) (t : text) (p engine : string)
    (kw : synth_kwargs) (w : world) :
  let first := engine_synthesize X sys (primary sys) t p kw w in
  let r := synthesize X sys t p engine kw w in
  (∃ l, calls r.2 = calls w ++ l ∧ (length l ≤ 2)%nat)
  ∧ (selected_engine sys engine = Some (primary sys) →
     first.1 = false →
     match fallback sys with
     | Some fb =>
         r = engine_synthesize X sys fb t p kw first.2
         ∧ calls r.2 = calls w ++ [primary sys; fb]
     | None => r.1 = false ∧ calls r.2 = calls w ++ [primary sys]
     end)
  ∧ (∀ coqui_ok pyttsx_ok, __init__ coqui_ok pyttsx_ok = Some sys →
     selected_engine sys "auto" = Some (primary sys)
     ∧ selected_engine sys (name (primary sys)) = Some (primary sys)
     ∧ fallback sys ≠ Some (primary sys)).
Proof.
  intros first r. split; [apply synthesize_calls|]. split.
  - intros Hsel Hfail. subst r. unfold synthesize. rewrite Hsel.
    pose proof (engine_synthesize_calls X sys (primary sys) t p kw w) as Hc.
    fold first in Hc. fold first.
    destruct first as [ok w1] eqn:E. simpl in Hfail, Hc. subst ok.
    destruct (fallback sys) as [fb|]; simpl.
    + rewrite bool_decide_eq_true_2 by done. split; [done|].
      rewrite engine_synthesize_calls, Hc, <- app_assoc. done.
    + done.
  - intros ca pa Hinit.
    destruct (init_cases _ _ _ Hinit) as [[_ ->]|(_ & _ & ->)]; done.
Qed.

Lemma fallback_once_after_primary_failure_witness :
  let sys := Make true true Coqui (Some Pyttsx) in
  selected_engine sys "auto" = Some (primary sys)
  ∧ (engine_synthesize failing_libraries sys (primary sys) hello "out.wav"
       default_kwargs empty_world).1 = false
  ∧ calls (synthesize failing_libraries sys hello "out.wav" "auto"
             default_kwargs empty_world).2 = [Coqui; Pyttsx].
Proof.
  intros sys. split; [reflexivity|]. split; [reflexivity|].
  destruct (fallback_once_after_primary_failure failing_libraries sys hello
              "out.wav" "auto" default_kwargs empty_world) as (_ & H & _).
  exact (proj2 (H eq_refl eq_refl)).
Defined.

(** A request for the non-primary engine, as the claim C2 words it: one
    call, on the named engine. *)
Definition one_call_on_named_engine (X : externals) (sys : DualTTSSystem.t)
    (named : engine_id) (t : text) (p : string) (kw : synth_kwargs) (w : world) : Prop :=
  calls (synthesize X sys t p (name named) kw w).2 = calls w ++ [named].

(** C2, as stated, fails where Coqui is unavailable: pyttsx3 is the primary
    then, a request naming "coqui" names the non-primary engine, and the one
    call goes to pyttsx3, not to the engine named. *)
Lemma named_non_primary_counterexample :
  __init__ false true = Some (Make false true Pyttsx None)
  ∧ Coqui ≠ primary (Make false true Pyttsx None)
  ∧ calls (synthesize failing_libraries (Make false true Pyttsx None) hello
             "out.wav" (name Coqui) default_kwargs empty_world).2 = [Pyttsx]
  ∧ ¬ one_call_on_named_engine failing_libraries (Make false true Pyttsx None)
        Coqui hello "out.wav" default_kwargs empty_world.
Proof.
  split; [reflexivity|]. split; [discriminate|]. split; [reflexivity|].
  unfold one_call_on_named_engine. vm_compute. discriminate.
Qed.

(** C2, amended. For a coordinator built by [__init__], a request that names
    the non-primary engine makes exactly one [synthesize] call and no
    fallback call, and the result of that call is returned, failure
    included. The call is on pyttsx3: the engine named when "pyttsx3" is
    named, the substitute when "coqui" is named (Coqui is non-primary only
    when it is unavailable). *)
Theorem non_primary_request_no_fallback
    (X : externals) (coqui_ok pyttsx_ok : bool) (sys : DualTTSSystem.t)
    (named : engine_id) (t : text) (p : string) (kw : synth_kwargs) (w : world) :
  __init__ coqui_ok pyttsx_ok = Some sys →
  named ≠ primary sys →
  let r := synthesize X sys t p (name named) kw w in
  selected_engine sys (name named) = Some Pyttsx
  ∧ r = engine_synthesize X sys Pyttsx t p kw w
  ∧ calls r.2 = calls w ++ [Pyttsx]
  ∧ (named = Pyttsx ∨ (named = Coqui ∧ coqui_available sys = false)).
Proof.
  intros Hinit Hne r. subst r.
  assert (Hsel : selected_engine sys (name named) = Some Pyttsx ∧ Pyttsx ≠ primary sys
                 ∨ selected_engine sys (name named) = Some Pyttsx ∧ fallback sys = None).
  { destruct (init_cases _ _ _ Hinit) as [[_ ->]|(_ & _ & ->)];
      destruct named; simpl in Hne; try done; [left|right]; done. }
  assert (Hwho : named = Pyttsx ∨ (named = Coqui ∧ coqui_available sys = false)).
  { destruct (init_cases _ _ _ Hinit) as [[_ ->]|(_ & _ & ->)];
      destruct named; simpl in Hne; try done; auto. }
  assert (Hr : synthesize X sys t p (name named) kw w
               = engine_synthesize X sys Pyttsx t p kw w).
  { destruct Hsel as [[Hs ?]|[Hs ?]]; apply synthesize_single; auto. }
  split; [by destruct Hsel as [[? _]|[? _]]|].
  split; [done|]. split; [|done].
  rewrite Hr. apply engine_synthesize_calls.
Qed.

Lemma non_primary_request_no_fallback_witness :
  __init__ true true = Some (Make true true Coqui (Some Pyttsx))
  ∧ Pyttsx ≠ primary (Make true true Coqui (Some Pyttsx))
  ∧ calls (synthesize failing_libraries (Make true true Coqui (Some Pyttsx))
             hello "out.wav" (name Pyttsx) default_kwargs empty_world).2
    = calls empty_world ++ [Pyttsx].
Proof.
  split; [reflexivity|]. split; [discriminate|].
  refine (proj1 (proj2 (proj2
    (non_primary_request_no_fallback failing_libraries true true
       (Make true true Coqui (Some Pyttsx)) Pyttsx hello "out.wav"
       default_kwargs empty_world eq_refl _)))).
  discriminate.
Defined.

(** C3, as stated, fails for "pyttsx3": with pyttsx3 unavailable and Coqui
    available, a request naming "pyttsx3" still selects pyttsx3; Coqui, the
    other and available engine, is not invoked and the request fails. *)
Lemma unavailable_pyttsx3_counterexample :
  let sys := Make true false Coqui (Some Pyttsx) in
  let r := synthesize working_libraries sys hello "out.wav" (name Pyttsx)
             default_kwargs empty_world in
  __init__ true false = Some sys
  ∧ available sys Pyttsx = false
  ∧ available sys Coqui = true
  ∧ selected_engine sys (name Pyttsx) ≠ Some Coqui
  ∧ calls r.2 = [Pyttsx]
  ∧ r.1 = false.
Proof.
  intros sys r.
  split; [reflexivity|]. split; [reflexivity|]. split; [reflexivity|].
  split; [discriminate|]. split; reflexivity.
Qed.

(** C3, amended. For a coordinator built by [__init__]: a request naming
    "coqui" while Coqui's flag is false and pyttsx3's is true selects
    pyttsx3 instead and invokes its [synthesize], and nothing else. A
    request naming "pyttsx3" selects pyttsx3 whatever the flags: with its
    flag false, its [synthesize] is entered, returns false, and no other
    engine is invoked. *)
Theorem unavailable_engine_substitution
    (X : externals) (coqui_ok pyttsx_ok : bool) (sys : DualTTSSystem.t)
    (t : text) (p : string) (kw : synth_kwargs) (w : world) :
  __init__ coqui_ok pyttsx_ok = Some sys →
  (coqui_available sys = false → pyttsx_available sys = true →
     selected_engine sys "coqui" = Some Pyttsx
     ∧ synthesize X sys t p "coqui" kw w = engine_synthesize X sys Pyttsx t p kw w
     ∧ calls (synthesize X sys t p "coqui" kw w).2 = calls w ++ [Pyttsx])
  ∧ selected_engine sys "pyttsx3" = Some Pyttsx
  ∧ (pyttsx_available sys = false →
     synthesize X sys t p "pyttsx3" kw w = (false, log_call Pyttsx w)).
Proof.
  intros Hinit. split; [|split; [done|]].
  - intros Hc Hp.
    assert (Hsel : selected_engine sys "coqui" = Some Pyttsx)
      by (rewrite selected_engine_coqui, Hc; done).
    assert (Hfb : fallback sys = None).
    { destruct (init_cases _ _ _ Hinit) as [[_ ->]|(_ & _ & ->)]; done. }
    assert (Hr : synthesize X sys t p "coqui" kw w
                 = engine_synthesize X sys Pyttsx t p kw w)
      by (apply synthesize_single; auto).
    split; [done|]. split; [done|]. rewrite Hr. apply engine_synthesize_calls.
  - intros Hp.
    assert (Hne : Pyttsx ≠ primary sys).
    { destruct (init_cases _ _ _ Hinit) as [[_ ->]|(_ & Ht & ->)]; [done|].
      simpl in Hp. congruence. }
    rewrite (synthesize_single X sys t p "pyttsx3" kw w Pyttsx) by auto.
    by apply engine_synthesize_unavailable.
Qed.

Lemma unavailable_engine_substitution_witness :
  __init__ false true = Some (Make false true Pyttsx None)
  ∧ selected_engine (Make false true Pyttsx None) "coqui" = Some Pyttsx
  ∧ calls (synthesize working_libraries (Make false true Pyttsx None) hello
             "out.wav" "coqui" default_kwargs empty_world).2
    = calls empty_world ++ [Pyttsx].
Proof.
  split; [reflexivity|].
  destruct (unavailable_engine_substitution working_libraries false true
              (Make false true Pyttsx None) hello "out.wav" default_kwargs
              empty_world eq_refl) as (H & _).
  destruct (H eq_refl eq_refl) as (H1 & _ & H3). exact (conj H1 H3).
Defined.

(** C10. For an engine selector other than "auto", "coqui" and "pyttsx3",
    [synthesize] returns false and leaves the world as it was: neither
    adapter's [synthesize] has been entered. (In the embedding [synthesize]
    is a total function: no path of it raises.) *)
Theorem unknown_selector_returns_false
    (X : externals) (sys : DualTTSSystem.t) (t : text) (p engine : string)
    (kw : synth_kwargs) (w : world) :
  engine ≠ "auto" → engine ≠ "coqui" → engine ≠ "pyttsx3" →
  synthesize X sys t p engine kw w = (false, w)
  ∧ calls (synthesize X sys t p engine kw w).2 = calls w.
Proof.
  intros H1 H2 H3. unfold synthesize.
  rewrite selected_engine_unknown by done. done.
Qed.

Lemma unknown_selector_returns_false_witness :
  "espeak" ≠ "auto" ∧ "espeak" ≠ "coqui" ∧ "espeak" ≠ "pyttsx3"
  ∧ synthesize working_libraries (Make true true Coqui (Some Pyttsx)) hello
      "out.wav" "espeak" default_kwargs empty_world = (false, empty_world).
Proof.
  assert (H1 : "espeak" ≠ "auto") by discriminate.
  assert (H2 : "espeak" ≠ "coqui") by discriminate.
  assert (H3 : "espeak" ≠ "pyttsx3") by discriminate.
  split; [exact H1|]. split; [exact H2|]. split; [exact H3|].
  exact (proj1 (unknown_selector_returns_false working_libraries
                  (Make true true Coqui (Some Pyttsx)) hello "out.wav" "espeak"
                  default_kwargs empty_world H1 H2 H3)).
Defined.

(** ** Style parameters *)

(** Checking a property on each of 0, 1, ..., 100. *)
Lemma each_intensity (P : Z → bool) :
  forallb P (Z.of_nat <$> seq 0 101) = true →
  ∀ i, 0 ≤ i ≤ 100 → P i = true.
Proof.
  intros Hall i Hi. rewrite forallb_forall in Hall. apply Hall.
  apply in_map_iff. exists (Z.to_nat i). split; [lia|].
  apply in_seq. lia.
Qed.

Lemma float_neq (a b : float) : Prim2SF a ≠ Prim2SF b → a ≠ b.
Proof. intros H ->. by apply H. Qed.

Lemma Some_float_neq (a b : float) : Prim2SF a ≠ Prim2SF b → Some a ≠ Some b.
Proof.
  intros H E. apply H.
  exact (f_equal (λ o, Prim2SF (default 0%float o)) E).
Qed.

Lemma intensity_factor_scale i :
  PyttsxEngine.intensity_factor i = CoquiTTSEngine.intensity_scale i.
Proof. reflexivity. Qed.

Lemma intensity_scale_range i :
  0 ≤ i ≤ 100 →
  ∃ m, CoquiTTSEngine.intensity_scale i = Some m
       ∧ close_to m (rescaled i) = true
       ∧ PrimFloat.eqb m 0%float = false.
Proof.
  intros Hi.
  assert (H : scale_checked i = true).
  { revert i Hi. apply each_intensity. vm_compute. reflexivity. }
  unfold scale_checked in H.
  destruct (CoquiTTSEngine.intensity_scale i) as [m|]; [|done].
  apply andb_true_iff in H as [H1 H2]. apply negb_true_iff in H2. eauto.
Qed.

Lemma coqui_configs_unknown s configs style :
  style ∉ style_enumeration →
  CoquiTTSEngine.style_configs s = Some configs →
  configs !! style = None.
Proof.
  intros Hout Hc. unfold CoquiTTSEngine.style_configs in Hc.
  destruct (Py.truediv _ _) as [v|]; [|done]. simpl in Hc. injection Hc as <-.
  unfold style_enumeration in Hout.
  rewrite !lookup_insert_ne by (intros <-; apply Hout; set_solver).
  apply lookup_empty.
Qed.

Lemma pyttsx_configs_unknown style :
  style ∉ style_enumeration →
  PyttsxEngine.style_configs !! style = None.
Proof.
  intros Hout. unfold PyttsxEngine.style_configs, style_enumeration in *.
  rewrite !lookup_insert_ne by (intros <-; apply Hout; set_solver).
  apply lookup_empty.
Qed.

Lemma coqui_neutral_params i :
  0 ≤ i ≤ 100 → CoquiTTSEngine._get_style_params "neutral" i = Some ∅.
Proof.
  intros Hi. destruct (intensity_scale_range i Hi) as (m & Hm & _ & Hz).
  unfold CoquiTTSEngine._get_style_params, CoquiTTSEngine.style_configs, Py.truediv.
  rewrite Hm. simpl. rewrite Hz. simpl. by rewrite lookup_insert_eq.
Qed.

(** C4. For a style outside the enumeration and an intensity in 0..100, each
    adapter's mapping gives exactly what it gives for "neutral" at that
    intensity: no parameter at all for Coqui, and for pyttsx3 the rate and
    volume of "neutral" (multipliers 1.0), from the same engine properties. *)
Theorem unknown_style_maps_as_neutral
    (style : string) (intensity : Z) (p : PyttsxEngine.props) :
  style ∉ style_enumeration →
  0 ≤ intensity ≤ 100 →
  CoquiTTSEngine._get_style_params style intensity
    = CoquiTTSEngine._get_style_params "neutral" intensity
  ∧ CoquiTTSEngine._get_style_params style intensity = Some ∅
  ∧ PyttsxEngine._apply_style style intensity p
    = PyttsxEngine._apply_style "neutral" intensity p.
Proof.
  intros Hout Hi.
  assert (Hc : CoquiTTSEngine._get_style_params style intensity = Some ∅).
  { destruct (intensity_scale_range intensity Hi) as (m & Hm & _ & Hz).
    unfold CoquiTTSEngine._get_style_params. rewrite Hm. simpl.
    destruct (CoquiTTSEngine.style_configs m) as [configs|] eqn:E.
    - simpl. by rewrite (coqui_configs_unknown m configs style).
    - unfold CoquiTTSEngine.style_configs, Py.truediv in E. by rewrite Hz in E. }
  split; [by rewrite coqui_neutral_params|]. split; [done|].
  unfold PyttsxEngine._apply_style.
  destruct (PyttsxEngine.intensity_factor intensity) as [f|]; [|done].
  change (PyttsxEngine.style_configs !! "neutral")
    with (Some PyttsxEngine.neutral_config).
  cbn [mbind option_bind].
  pose proof (pyttsx_configs_unknown style Hout) as Hnone.
  destruct (PyttsxEngine.style_configs !! style); [discriminate|]. reflexivity.
Qed.

Lemma unknown_style_maps_as_neutral_witness :
  ("sarcastic" ∉ style_enumeration)
  ∧ 0 ≤ 80 ≤ 100
  ∧ PyttsxEngine._apply_style "sarcastic" 80 (PyttsxEngine.Props 200 1.0 "")
    = PyttsxEngine._apply_style "neutral" 80 (PyttsxEngine.Props 200 1.0 "").
Proof.
  assert (H1 : "sarcastic" ∉ style_enumeration).
  { unfold style_enumeration. intros Hin%list_elem_of_In. simpl in Hin.
    repeat (destruct Hin as [Hin|Hin]; [discriminate|]). exact Hin. }
  assert (H2 : 0 ≤ 80 ≤ 100) by lia.
  split; [exact H1|]. split; [exact H2|].
  exact (proj2 (proj2 (unknown_style_maps_as_neutral "sarcastic" 80
                         (PyttsxEngine.Props 200 1.0 "") H1 H2))).
Defined.

(** C5. In both adapters the multiplier derived from an intensity in 0..100
    is [0.5 + intensity / 100.0]: the affine map of 0..100 onto 0.5..1.5,
    rounded (it is within 2^-52 of the exact value). At intensity 0 it is
    exactly 0.5 and at intensity 100 exactly 1.5. *)
Theorem intensity_multiplier_endpoints (intensity : Z) :
  0 ≤ intensity ≤ 100 →
  (∃ m, CoquiTTSEngine.intensity_scale intensity = Some m
        ∧ PyttsxEngine.intensity_factor intensity = Some m
        ∧ close_to m (rescaled intensity) = true)
  ∧ CoquiTTSEngine.intensity_scale 0 = Some 0.5%float
  ∧ CoquiTTSEngine.intensity_scale 100 = Some 1.5%float
  ∧ PyttsxEngine.intensity_factor 0 = Some 0.5%float
  ∧ PyttsxEngine.intensity_factor 100 = Some 1.5%float.
Proof.
  intros Hi. split.
  - destruct (intensity_scale_range intensity Hi) as (m & Hm & Hq & _).
    exists m. split; [exact Hm|]. split; [|exact Hq].
    pose proof (intensity_factor_scale intensity) as Hf. congruence.
  - repeat split; vm_compute; reflexivity.
Qed.

Lemma intensity_multiplier_endpoints_witness :
  0 ≤ 100 ≤ 100
  ∧ ∃ m, CoquiTTSEngine.intensity_scale 100 = Some m
         ∧ PyttsxEngine.intensity_factor 100 = Some m
         ∧ close_to m (rescaled 100) = true.
Proof.
  assert (H : 0 ≤ 100 ≤ 100) by lia.
  split; [exact H|]. exact (proj1 (intensity_multiplier_endpoints 100 H)).
Defined.

(** C6, as stated, fails in both adapters. Coqui's "somber" speed is the
    base 0.8 divided by the multiplier: at intensity 100 it is 0.8 / 1.5,
    not 0.8 * 1.5. The pyttsx3 volume is capped at 1.0: from volume 1.0,
    "enthusiastic" at intensity 100 gives 1.0, not 1.0 * 1.2 * 1.5. *)
Lemma multiplicative_counterexample :
  ("somber" ∈ style_enumeration)
  ∧ ("enthusiastic" ∈ style_enumeration)
  ∧ 0 ≤ 100 ≤ 100
  ∧ ¬ speed_is_product "somber" 100
  ∧ ¬ volume_is_product "enthusiastic" 100 (PyttsxEngine.Props 200 1.0 "").
Proof.
  split; [unfold style_enumeration; set_solver|].
  split; [unfold style_enumeration; set_solver|].
  split; [lia|]. split.
  - intros (base & m & params & Hb & Hm & Hp & Hv).
    vm_compute in Hb. injection Hb as <-.
    vm_compute in Hm. injection Hm as <-.
    vm_compute in Hp. injection Hp as <-.
    vm_compute in Hv.
    revert Hv. apply Some_float_neq. vm_compute. discriminate.
  - intros (config & m & p' & Hc & Hm & Hp & Hv).
    vm_compute in Hc. injection Hc as <-.
    vm_compute in Hm. injection Hm as <-.
    vm_compute in Hp. injection Hp as <-.
    vm_compute in Hv.
    revert Hv. apply float_neq. vm_compute. discriminate.
Qed.

(** C6, amended. For every intensity in 0..100, with [m] the multiplier
    derived from it: Coqui's mapping sets no parameter for "neutral", sets
    the speed to the base times [m] for "enthusiastic" (1.1), "confident"
    (1.0) and "authoritative" (0.9), and to 0.8 divided by [m] for "somber".
    For every style of the enumeration, pyttsx3's mapping sets the rate to
    [int(rate * rate_mult * m)], truncated toward zero, and the volume to
    [min(1.0, volume * volume_mult * m)], with the multipliers of the
    style's row. *)
Theorem style_parameters_from_table
    (style : string) (intensity : Z) (p : PyttsxEngine.props) :
  style ∈ style_enumeration →
  0 ≤ intensity ≤ 100 →
  ∃ m,
    CoquiTTSEngine.intensity_scale intensity = Some m
    ∧ PyttsxEngine.intensity_factor intensity = Some m
    ∧ CoquiTTSEngine._get_style_params "neutral" intensity = Some ∅
    ∧ CoquiTTSEngine._get_style_params "enthusiastic" intensity
      = Some {["speed" := (1.1 * m)%float]}
    ∧ CoquiTTSEngine._get_style_params "somber" intensity
      = Some {["speed" := (0.8 / m)%float]}
    ∧ CoquiTTSEngine._get_style_params "confident" intensity
      = Some {["speed" := (1.0 * m)%float]}
    ∧ CoquiTTSEngine._get_style_params "authoritative" intensity
      = Some {["speed" := (0.9 * m)%float]}
    ∧ ∃ config,
        PyttsxEngine.style_configs !! style = Some config
        ∧ PyttsxEngine._apply_style style intensity p
          = (rate_f ← Py.float_of_int (PyttsxEngine.rate p);
             new_rate ← Py.int_of_float
                          (rate_f * PyttsxEngine.rate_mult config * m)%float;
             Some {| PyttsxEngine.rate := new_rate;
                     PyttsxEngine.volume :=
                       Py.min 1.0%float
                         (PyttsxEngine.volume p
                          * PyttsxEngine.volume_mult config * m)%float;
                     PyttsxEngine.voice := PyttsxEngine.voice p |}).
Proof.
  intros Hin Hi.
  destruct (intensity_scale_range intensity Hi) as (m & Hm & _ & Hz).
  exists m. split; [exact Hm|].
  split; [pose proof (intensity_factor_scale intensity); congruence|].
  assert (Hcoqui : ∀ s, CoquiTTSEngine._get_style_params s intensity
            = (configs ← CoquiTTSEngine.style_configs m; Some (default ∅ (configs !! s)))).
  { intros s. unfold CoquiTTSEngine._get_style_params. by rewrite Hm. }
  assert (Hconf : CoquiTTSEngine.style_configs m
            = Some (<["neutral" := ∅]>
                   (<["enthusiastic" := {["speed" := (1.1 * m)%float]}]>
                   (<["somber" := {["speed" := (0.8 / m)%float]}]>
                   (<["confident" := {["speed" := (1.0 * m)%float]}]>
                   (<["authoritative" := {["speed" := (0.9 * m)%float]}]>
                    ∅)))))).
  { unfold CoquiTTSEngine.style_configs, Py.truediv. by rewrite Hz. }
  rewrite !Hcoqui, Hconf.
  split; [reflexivity|]. split; [reflexivity|]. split; [reflexivity|].
  split; [reflexivity|]. split; [reflexivity|].
  assert (Hrow : ∃ config, PyttsxEngine.style_configs !! style = Some config).
  { unfold style_enumeration in Hin.
    apply list_elem_of_In in Hin. simpl in Hin.
    destruct Hin as [<-|[<-|[<-|[<-|[<-|[]]]]]]; eexists; reflexivity. }
  destruct Hrow as [config Hrow]. exists config. split; [exact Hrow|].
  unfold PyttsxEngine._apply_style.
  assert (Hf : PyttsxEngine.intensity_factor intensity = Some m)
    by (pose proof (intensity_factor_scale intensity); congruence).
  rewrite Hf.
  change (PyttsxEngine.style_configs !! "neutral")
    with (Some PyttsxEngine.neutral_config).
  cbn [mbind option_bind]. rewrite Hrow. cbn [default from_option id].
  unfold Py.int_mul.
  destruct (Py.float_of_int (PyttsxEngine.rate p)); reflexivity.
Qed.

Lemma style_parameters_from_table_witness :
  ("somber" ∈ style_enumeration)
  ∧ 0 ≤ 100 ≤ 100
  ∧ CoquiTTSEngine._get_style_params "somber" 100
    = Some {["speed" := (0.8 / 1.5)%float]}.
Proof.
  assert (H1 : "somber" ∈ style_enumeration)
    by (unfold style_enumeration; apply list_elem_of_In; simpl; tauto).
  assert (H2 : 0 ≤ 100 ≤ 100) by lia.
  split; [exact H1|]. split; [exact H2|].
  destruct (style_parameters_from_table "somber" 100
              (PyttsxEngine.Props 200 1.0 "") H1 H2)
    as (m & Hm & _ & _ & _ & Hs & _).
  assert (Hm' : CoquiTTSEngine.intensity_scale 100 = Some 1.5%float)
    by (vm_compute; reflexivity).
  rewrite Hm' in Hm. injection Hm as <-. exact Hs.
Defined.

(** ** The request boundary *)

Lemma lstrip_blank t : blank t → lstrip t = [].
Proof.
  unfold blank. induction t as [|c t IH]; [done|]. simpl.
  intros [Hc Ht]%andb_true_iff. rewrite Hc. auto.
Qed.

Lemma strip_blank t : blank t → truthy (strip t) = false.
Proof.
  intros H. unfold strip. by rewrite (lstrip_blank t H).
Qed.

Lemma lstrip_nil_blank t : lstrip t = [] → blank t.
Proof.
  unfold blank. induction t as [|c t IH]; [done|]. simpl.
  destruct (isspace c); [auto|done].
Qed.

(** [strip] leaves nothing exactly of the blank texts. *)
Lemma strip_nil_iff t : strip t = [] ↔ blank t.
Proof.
  split.
  - unfold strip, rstrip. intros H.
    assert (Hr : lstrip (rev (lstrip t)) = []).
    { apply (f_equal (@rev N)) in H. by rewrite rev_involutive in H. }
    apply lstrip_nil_blank in Hr.
    destruct (lstrip t) as [|c t'] eqn:E; [by apply lstrip_nil_blank|].
    exfalso.
    assert (Hc : isspace c = true).
    { unfold blank in Hr. rewrite forallb_forall in Hr. apply Hr.
      apply in_rev. rewrite rev_involutive. by left. }
    clear -E Hc. induction t as [|a t IH]; [done|]. simpl in E.
    destruct (isspace a) eqn:Ea; [auto|]. injection E as -> _. congruence.
  - intros H. unfold strip. by rewrite (lstrip_blank t H).
Qed.

Section Frames.

Variable X : externals.
Hypothesis Hclean : clean_on_failure X.

Lemma engine_synthesize_failure_files sys e t p kw w :
  (engine_synthesize X sys e t p kw w).1 = false →
  files (engine_synthesize X sys e t p kw w).2 = files w.
Proof.
  destruct Hclean as [Hc Hp].
  destruct e; simpl.
  - unfold coqui_synthesize.
    destruct (coqui_available sys); simpl; [|done].
    destruct (CoquiTTSEngine._get_style_params _ _) as [ps|]; [|done].
    specialize (Hc t p ps (log_call Coqui w)).
    destruct (tts_to_file X _ _ _ _) as [ok fs]; simpl in *.
    intros ->. by rewrite Hc.
  - unfold pyttsx_synthesize.
    destruct (pyttsx_available sys); simpl; [|done].
    destruct (match kw_voice kw with Some v => _ | None => _ end) as [p1|]; [|done].
    destruct (PyttsxEngine._apply_style _ _ _) as [p2|]; [|done].
    match goal with |- context [save_to_file_and_run X t p ?w2] =>
      specialize (Hp t p w2); destruct (save_to_file_and_run X t p w2) as [ok fs]
    end.
    simpl in *. intros ->. by rewrite Hp.
Qed.

(** The coordinator neither creates nor removes a file: after an overall
    failure the files are as they were, given libraries that are clean on
    failure. *)
Lemma synthesize_failure_files sys t p engine kw w :
  (synthesize X sys t p engine kw w).1 = false →
  files (synthesize X sys t p engine kw w).2 = files w.
Proof.
  unfold synthesize.
  destruct (selected_engine sys engine) as [sel|]; [|done].
  pose proof (engine_synthesize_failure_files sys sel t p kw w) as H1.
  destruct (engine_synthesize X sys sel t p kw w) as [ok w1]; simpl in H1.
  destruct (fallback sys) as [fb|]; [|done].
  destruct ok; simpl; [done|].
  destruct (bool_decide (sel = primary sys)); [|done].
  intros H2. rewrite (engine_synthesize_failure_files sys fb t p kw w1 H2). auto.
Qed.

End Frames.

Lemma truthy_strip t : truthy (strip t) = true → truthy t = true.
Proof. destruct t; [done|done]. Qed.

(** What the request boundary checks before any engine is invoked. A
    request whose text is empty or whitespace-only is rejected by the
    synchronous endpoint, by the asynchronous endpoint and by the CLI. A
    text of more than 1000 characters is rejected by the synchronous
    endpoint. An intensity outside 0..100 is rejected by the CLI. A
    rejecting HTTP handler has only counted the request; a rejecting CLI run
    leaves the world as it was and, unless [--status] or [--list-voices]
    ended it earlier, exits with a non-zero status. *)
Lemma validation_rejects_before_engines
    (X : externals) (lower : string → string) (voices : list Voices.voice)
    (tts_system : DualTTSSystem.t) (request : TTSRequest)
    (timestamp uuid8 uuid : string) (elapsed : float) (now : Z) (st : App.state)
    (a : CLI.args) (coqui_ok pyttsx_ok : bool) (w : world) :
  let sync := App.synthesize_speech X tts_system request timestamp uuid8 elapsed st in
  let async := App.synthesize_speech_async request uuid now st in
  let cli := CLI.main X lower voices a coqui_ok pyttsx_ok now w in
  (blank (req_text request) →
     sync = (Raise (validation_error "Text cannot be empty"), App.count_request st)
     ∧ async = (Raise (validation_error "Text cannot be empty"), App.count_request st))
  ∧ ((1000 < length (req_text request))%nat →
     ∃ why, sync = (Raise (validation_error why), App.count_request st))
  ∧ (match CLI.text_arg a with Some t => blank t | None => True end
     ∨ ¬ (0 ≤ CLI.intensity a ≤ 100) →
     cli.2 = w
     ∧ (CLI.status a = false → CLI.list_voices a = false → cli.1 ≠ 0)).
Proof.
  intros sync async cli. split; [|split].
  - intros Hb. subst sync async.
    unfold App.synthesize_speech, App.synthesize_speech_async.
    by rewrite (strip_blank _ Hb).
  - intros Hlen. subst sync. unfold App.synthesize_speech.
    destruct (truthy (strip (req_text request))); simpl; [|eauto].
    apply Nat.ltb_lt in Hlen. rewrite Hlen. eauto.
  - intros Hbad. subst cli. unfold CLI.main.
    destruct (__init__ coqui_ok pyttsx_ok) as [sys|]; [|done].
    destruct (CLI.status a); [done|].
    destruct (CLI.list_voices a).
    { by destruct (Voices.list_voices lower _ voices). }
    destruct (CLI.text_arg a) as [t|]; [|done].
    destruct (CLI.output a) as [out|]; [|done].
    destruct (negb (truthy t) || bool_decide (out = "")); [done|].
    destruct Hbad as [Hb|Hi].
    + destruct (negb _); [done|].
      unfold CLI.validate_inputs. by rewrite (strip_blank _ Hb).
    + destruct (_ && _) eqn:E; [|done].
      apply andb_true_iff in E as [?%Z.leb_le ?%Z.leb_le]. lia.
Qed.

(** C7. The claim is right and the HTTP handlers miss it: they never look
    at the intensity, which the CLI checks before anything else is done and
    which the adapters take to lie in 0..100. With both engines available
    and the request "Hello" at intensity -50, the CLI refuses (exit status
    2) and touches nothing. The synchronous endpoint does not refuse: it
    invokes Coqui, whose style table cannot be built at the multiplier 0.0
    (0.8 / 0.0), then pyttsx3, which is left at rate 0 and volume 0.0, and
    it answers with a success. The asynchronous endpoint queues the request,
    and its background task invokes the same two engines. At intensity 150
    the synchronous endpoint invokes Coqui and answers with a success. *)
Theorem http_intensity_reaches_the_engines :
  let sys := Make true true Coqui (Some Pyttsx) in
  let request := request_for hello (-50) in
  let cli := CLI.main working_libraries ascii_lower sample_voices
               (args_for hello "out.wav" (-50)) true true 7 empty_world in
  let sync := App.synthesize_speech working_libraries sys request
                "20240101_120000" "0a1b2c3d" 0.25%float fresh_app in
  let async := App.synthesize_speech_async request "0a1b2c3d-0000" 7 fresh_app in
  let task := job_run working_libraries sys 5 "0a1b2c3d-0000" request
                "20240101_120000" 0.25%float App.AtStart async.2 in
  let sync150 := App.synthesize_speech working_libraries sys (request_for hello 150)
                   "20240101_120000" "0a1b2c3d" 0.25%float fresh_app in
  ¬ (0 ≤ req_intensity request ≤ 100)
  ∧ cli = (2, empty_world)
  ∧ CoquiTTSEngine._get_style_params (req_style request) (req_intensity request) = None
  ∧ (∃ resp, sync.1 = Return resp ∧ success resp = true)
  ∧ calls (App.env sync.2) = [Coqui; Pyttsx]
  ∧ pyttsx_props (App.env sync.2) = PyttsxEngine.Props 0 0.0 ""
  ∧ (∃ resp, async.1 = Return resp ∧ task_id resp = Some "0a1b2c3d-0000")
  ∧ calls (App.env async.2) = []
  ∧ task.1 = App.Finished
  ∧ calls (App.env task.2) = [Coqui; Pyttsx]
  ∧ (∃ resp, sync150.1 = Return resp ∧ success resp = true)
  ∧ calls (App.env sync150.2) = [Coqui].
Proof.
  intros sys request cli sync async task sync150.
  split; [simpl; lia|].
  split; [vm_compute; reflexivity|].
  split; [vm_compute; reflexivity|].
  split; [eexists; split; vm_compute; reflexivity|].
  split; [vm_compute; reflexivity|].
  split; [vm_compute; reflexivity|].
  split; [eexists; split; vm_compute; reflexivity|].
  split; [vm_compute; reflexivity|].
  split; [vm_compute; reflexivity|].
  split; [vm_compute; reflexivity|].
  split; [eexists; split; vm_compute; reflexivity|].
  vm_compute; reflexivity.
Qed.

(** C9, as stated, fails through the CLI: [validate_inputs] creates the
    destination file to probe that it can be written, and nothing removes it
    when every engine fails. The file was absent before the request and is
    there, empty, after the failure. *)
Lemma file_left_after_failure_counterexample :
  let r := CLI.main failing_libraries ascii_lower sample_voices
             (args_for hello "out.wav" 50) true true 1000 empty_world in
  files empty_world !! "out.wav" = None
  ∧ r.1 = 1
  ∧ calls r.2 = [Coqui; Pyttsx]
  ∧ files r.2 !! "out.wav" = Some (FileInfo 0 1000).
Proof.
  intros r. split; [reflexivity|]. repeat split; vm_compute; reflexivity.
Qed.

(** C9, amended. The coordinator and the HTTP boundary create no file and
    remove none: with libraries that leave nothing behind when they fail, a
    request that ends in overall failure leaves the files exactly as they
    were, so a destination that was absent is absent afterwards. Through the
    CLI the destination file exists after an overall failure:
    [validate_inputs] has created or touched it before the synthesis, and it
    stays. *)
Theorem failure_leaves_files_as_libraries_did
    (X : externals) (lower : string → string) (voices : list Voices.voice)
    (sys : DualTTSSystem.t) (request : TTSRequest)
    (timestamp uuid8 : string) (elapsed : float) (st : App.state)
    (a : CLI.args) (coqui_ok pyttsx_ok : bool) (t : text) (out : string)
    (now : Z) (w w1 : world) :
  clean_on_failure X →
  let output_path := "static/audio/" +:+ "tts_" +:+ timestamp +:+ "_" +:+ uuid8 +:+ ".wav" in
  let sync := App.synthesize_speech X sys request timestamp uuid8 elapsed st in
  let cli := CLI.main X lower voices a coqui_ok pyttsx_ok now w in
  (∀ p engine kw,
     (synthesize X sys t p engine kw w).1 = false →
     files (synthesize X sys t p engine kw w).2 = files w)
  ∧ ((synthesize X sys (req_text request) output_path (req_engine request)
        (kwargs_of request) (App.env st)).1 = false →
     (∃ e, sync.1 = Raise e)
     ∧ files (App.env sync.2) = files (App.env st))
  ∧ (__init__ coqui_ok pyttsx_ok = Some sys →
     CLI.status a = false → CLI.list_voices a = false →
     CLI.text_arg a = Some t → CLI.output a = Some out → out ≠ "" →
     0 ≤ CLI.intensity a ≤ 100 →
     CLI.validate_inputs X t out now w = (Some true, w1) →
     (synthesize X sys t out (CLI.engine a)
        (Kwargs (CLI.style a) (CLI.intensity a) (CLI.voice a) None) w1).1 = false →
     cli.1 = 1
     ∧ files cli.2 = files w1
     ∧ is_Some (files cli.2 !! out)).
Proof.
  intros Hclean output_path sync cli. split; [|split].
  - intros p engine kw. by apply synthesize_failure_files.
  - intros Hfail. subst sync. unfold App.synthesize_speech.
    destruct (negb (truthy (strip (req_text request)))); [simpl; eauto|].
    destruct (_ <? _)%nat; [simpl; eauto|].
    destruct (negb (mkdir_parent_ok X _ _)); [simpl; eauto|].
    fold output_path. simpl App.env.
    pose proof (synthesize_failure_files X Hclean sys (req_text request) output_path
                  (req_engine request) (kwargs_of request) (App.env st) Hfail) as Hf.
    destruct (synthesize X sys _ _ _ _ _) as [ok w']. simpl in *. subst ok.
    simpl. eauto.
  - intros Hinit Hs Hl Ht Ho Hout Hi Hv Hfail.
    assert (Hfile : is_Some (files w1 !! out) ∧ truthy t = true).
    { unfold CLI.validate_inputs in Hv.
      destruct (truthy (strip t)) eqn:Et; [|done]. simpl in Hv.
      destruct (negb (mkdir_parent_ok X out (files w))); [done|].
      destruct (touch_ok X out (files w)); [|done].
      injection Hv as <-. simpl. rewrite lookup_insert_eq.
      split; [eauto|by apply truthy_strip]. }
    destruct Hfile as [Hfile Htruthy].
    pose proof (synthesize_failure_files X Hclean sys t out (CLI.engine a)
                  (Kwargs (CLI.style a) (CLI.intensity a) (CLI.voice a) None)
                  w1 Hfail) as Hf.
    subst cli. unfold CLI.main.
    rewrite Hinit, Hs, Hl, Ht, Ho, Htruthy, Hv. simpl.
    rewrite bool_decide_eq_false_2 by done.
    destruct Hi as [->%Z.leb_le ->%Z.leb_le]. simpl.
    destruct (synthesize X sys t out _ _ w1) as [ok w2]. simpl in *. subst ok.
    simpl. rewrite Hf. done.
Qed.

Lemma failing_libraries_clean : clean_on_failure failing_libraries.
Proof. split; intros; reflexivity. Defined.

Lemma failure_leaves_files_as_libraries_did_witness :
  let sys := Make true true Coqui (Some Pyttsx) in
  clean_on_failure failing_libraries
  ∧ (synthesize failing_libraries sys hello "static/audio/tts_20240101_120000_0a1b2c3d.wav"
       "auto" (kwargs_of (request_for hello 50)) empty_world).1 = false
  ∧ files (App.env (App.synthesize_speech failing_libraries sys (request_for hello 50)
                      "20240101_120000" "0a1b2c3d" 0.25%float fresh_app).2)
    = files (App.env fresh_app).
Proof.
  intros sys. split; [exact failing_libraries_clean|].
  assert (H : (synthesize failing_libraries sys hello
                 "static/audio/tts_20240101_120000_0a1b2c3d.wav" "auto"
                 (kwargs_of (request_for hello 50)) empty_world).1 = false)
    by reflexivity.
  split; [exact H|].
  exact (proj2 (proj1 (proj2 (failure_leaves_files_as_libraries_did
    failing_libraries ascii_lower sample_voices sys (request_for hello 50)
    "20240101_120000" "0a1b2c3d"
    0.25%float fresh_app (args_for hello "out.wav" 50) true true hello "out.wav" 0
    empty_world empty_world failing_libraries_clean)) H)).
Defined.

(** ** Background tasks *)

Section TaskStatus.

Import App.

Variable X : externals.
Variable tts_system : DualTTSSystem.t.

Local Arguments observe : simpl never.
Local Arguments consistent : simpl never.

Lemma observe_same h cur : cur = None ∨ cur = last h → observe h cur = h.
Proof.
  intros [->| ->]; [done|]. unfold observe.
  destruct (last h); [|done]. by rewrite decide_True.
Qed.

Lemma observe_new h x : last h ≠ Some x → observe h (Some x) = h ++ [x].
Proof. intros H. unfold observe. by rewrite decide_False. Qed.

Lemma observe_mono h o x : x ∈ h → x ∈ observe h o.
Proof.
  intros Hx. destruct o as [y|]; [|done]. unfold observe.
  case_decide; [done|]. apply elem_of_app. by left.
Qed.

Lemma consistent_chain pc cur h :
  consistent pc cur h →
  h `prefix_of` [pending; processing; completed]
  ∨ h `prefix_of` [pending; processing; failed].
Proof.
  intros [_ H].
  assert (Hh : h = [] ∨ h = [pending] ∨ h = [pending; processing]
               ∨ h = [pending; processing; completed]
               ∨ h = [pending; processing; failed]).
  { destruct pc as [[]|]; intuition auto. }
  destruct Hh as [->|[->|[->|[->| ->]]]];
    solve [left; eexists; reflexivity | right; eexists; reflexivity].
Qed.

Lemma chain_le h x y :
  h `prefix_of` [pending; processing; completed]
  ∨ h `prefix_of` [pending; processing; failed] →
  last h = Some x → y ∈ h → status_le y x.
Proof.
  intros Hc Hl Hy.
  assert (Hh : h = [] ∨ h = [pending] ∨ h = [pending; processing]
               ∨ h = [pending; processing; completed]
               ∨ h = [pending; processing; failed]).
  { destruct Hc as [[k Hk]|[k Hk]];
      destruct h as [|a [|b [|c [|d h]]]]; simplify_eq/=; auto 10. }
  unfold status_le.
  destruct Hh as [->|[->|[->|[->| ->]]]]; simplify_eq/=;
    repeat (apply elem_of_cons in Hy as [->|Hy]); simpl; auto with lia;
    by apply not_elem_of_nil in Hy.
Qed.

Lemma consistent_drop pc cur h : consistent pc cur h → consistent pc None h.
Proof.
  intros [_ H]. split; [by left|].
  destruct pc as [[]|]; intuition auto.
Qed.

(** The status that follows a stored one in the history is a later one. *)
Lemma consistent_step_le pc h a b :
  last h = Some a →
  consistent pc (Some b) (observe h (Some b)) →
  status_le a b.
Proof.
  intros Ha Hc. unfold observe in Hc.
  case_decide as Hb; [left; congruence|].
  apply consistent_chain in Hc.
  apply (chain_le (h ++ [b])); [done|by rewrite last_snoc|].
  apply elem_of_app. left. by apply last_Some_elem_of.
Qed.

Lemma sync_storage request timestamp uuid8 elapsed st :
  task_storage (synthesize_speech X tts_system request timestamp uuid8 elapsed st).2
  = task_storage st.
Proof.
  unfold synthesize_speech.
  destruct (negb (truthy (strip (req_text request)))); [done|].
  destruct (_ <? _)%nat; [done|].
  destruct (negb (mkdir_parent_ok X _ _)); [done|].
  destruct (DualTTSSystem.synthesize X tts_system _ _ _ _ _) as [ok w].
  by destruct (ok && _).
Qed.

Lemma cleanup_lookup now st id :
  task_storage (cleanup_old_files X now st).2 !! id = None
  ∨ task_storage (cleanup_old_files X now st).2 !! id = task_storage st !! id.
Proof.
  unfold cleanup_old_files.
  destruct (negb (audio_dir_exists X _)); [by right|]. simpl.
  destruct (task_storage st !! id) as [t|] eqn:E.
  - match goal with |- context [filter ?P (task_storage st)] =>
      destruct (decide (P (id, t))) as [HP|HP] end.
    + right. by apply map_lookup_filter_Some_2.
    + left. apply map_lookup_filter_None. right. intros t' Ht'. congruence.
  - left. apply map_lookup_filter_None. left. done.
Qed.

Lemma update_task_lookup tid f st st' id :
  update_task tid f st = Some st' →
  task_storage st' !! id
  = if decide (tid = id) then f <$> task_storage st !! tid
    else task_storage st !! id.
Proof.
  unfold update_task. destruct (task_storage st !! tid) as [t|] eqn:E; [|done].
  simpl. intros [= <-]. simpl. case_decide as Hd.
  - subst. by rewrite lookup_insert_eq.
  - by rewrite lookup_insert_ne.
Qed.

Lemma update_task_None tid f st :
  update_task tid f st = None ↔ task_storage st !! tid = None.
Proof.
  unfold update_task. destruct (task_storage st !! tid); simpl; split; done.
Qed.

(** A step of a background task leaves the records of the other tasks. *)
Lemma job_step_other tid request timestamp elapsed pc st id :
  tid ≠ id →
  task_storage (job_step X tts_system tid request timestamp elapsed pc st).2 !! id
  = task_storage st !! id.
Proof.
  intros Hne.
  assert (Hu : ∀ next f,
    task_storage (match update_task tid f st with
                  | Some st' => (next, st')
                  | None => (Handler (KeyError tid), st)
                  end).2 !! id = task_storage st !! id).
  { intros next f. destruct (update_task tid f st) as [st'|] eqn:E; [|done].
    simpl. rewrite (update_task_lookup _ _ _ _ id E). by rewrite decide_False. }
  destruct pc; simpl; try done; try apply Hu.
  - destruct (negb (mkdir_parent_ok X _ _)); [done|apply Hu].
  - by destruct (DualTTSSystem.synthesize X tts_system _ _ _ _ _).
  - destruct ok; [destruct (files (env st) !! _)|]; apply Hu.
  - destruct (update_task tid _ st) as [st'|] eqn:E; [|done].
    simpl. rewrite (update_task_lookup _ _ _ _ id E). by rewrite decide_False.
Qed.

(** A write to the record of a task: either the record is there and is
    updated, or the [KeyError] leads to the handler. *)
Lemma write_cases tid f st next :
  let r := match update_task tid f st with
           | Some st' => (next, st')
           | None => (Handler (KeyError tid), st)
           end in
  (∃ t, task_storage st !! tid = Some t
        ∧ r.1 = next ∧ task_storage r.2 !! tid = Some (f t))
  ∨ (task_storage st !! tid = None ∧ r = (Handler (KeyError tid), st)).
Proof.
  unfold update_task.
  destruct (task_storage st !! tid) as [t|] eqn:E; simpl.
  - left. exists t. by rewrite lookup_insert_eq.
  - by right.
Qed.

(** Between the first write and the final update the history stands at
    [pending; processing]. *)
Lemma consistent_keep pc pc' cur h :
  consistent (Some pc) cur h →
  in_try pc = true → in_try pc' = true →
  consistent (Some pc') cur (observe h cur).
Proof.
  intros Hc Hpc Hpc'. rewrite observe_same by apply Hc.
  destruct Hc as [H1 H2]. split; [done|].
  destruct pc; try done; destruct pc'; try done.
Qed.

Ltac consistency :=
  unfold consistent, observe in *; simpl in *;
  intuition (simplify_eq/=; auto; try congruence).

(** A step of a background task keeps its own record, its place in the
    code and the history of its status consistent. *)
Lemma job_step_own tid request timestamp elapsed pc st h :
  consistent (Some pc) (status <$> task_storage st !! tid) h →
  let r := job_step X tts_system tid request timestamp elapsed pc st in
  consistent (Some r.1) (status <$> task_storage r.2 !! tid)
    (observe h (status <$> task_storage r.2 !! tid)).
Proof.
  intros Hc. destruct pc; simpl.
  - destruct (write_cases tid (set_status processing) st StatusWritten)
      as [(t & Ht & -> & ->)|[Ht ->]]; rewrite Ht in Hc; simpl; [|rewrite Ht];
      consistency.
  - destruct (write_cases tid (set_progress 10) st Progress10)
      as [(t & Ht & -> & ->)|[Ht ->]]; rewrite Ht in Hc; simpl.
    + by apply (consistent_keep StatusWritten).
    + rewrite Ht. consistency.
  - destruct (negb (mkdir_parent_ok X _ _)).
    { simpl. rewrite observe_same by apply Hc. consistency. }
    match goal with |- context [update_task tid ?f st] =>
      destruct (write_cases tid f st
        (Progress30 ("tts_async_" +:+ timestamp +:+ "_" +:+ String.substring 0 8 tid +:+ ".wav")))
        as [(t & Ht & -> & ->)|[Ht ->]] end; rewrite Ht in Hc; simpl.
    + by apply (consistent_keep Progress10).
    + rewrite Ht. consistency.
  - destruct (DualTTSSystem.synthesize X tts_system _ _ _ _ _) as [ok w].
    simpl. by apply (consistent_keep (Progress30 filename)).
  - assert (Hend : ∀ f, (∀ t, status (f t) = completed ∨ status (f t) = failed) →
      let r := match update_task tid f st with
               | Some st' => (Finished, st')
               | None => (Handler (KeyError tid), st)
               end in
      consistent (Some r.1) (status <$> task_storage r.2 !! tid)
        (observe h (status <$> task_storage r.2 !! tid))).
    { intros f Hf r. subst r.
      destruct (write_cases tid f st Finished)
        as [(t & Ht & -> & ->)|[Ht ->]]; rewrite Ht in Hc; simpl.
      - destruct (Hf t) as [-> | ->]; consistency.
      - rewrite Ht. consistency. }
    destruct ok; [destruct (files (env st) !! _)|]; apply Hend; intros t; simpl; auto.
  - destruct (task_storage st !! tid) as [t|] eqn:Et.
    + unfold update_task. rewrite Et. simpl. rewrite lookup_insert_eq. simpl.
      consistency.
    + unfold update_task. rewrite Et. simpl. rewrite Et. consistency.
  - rewrite observe_same by apply Hc. done.
  - rewrite observe_same by apply Hc. done.
Qed.

Variable id : string.

(** Every command keeps the invariant of every task, given that an accepted
    asynchronous request draws an identifier no task has yet. *)
Lemma exec_invariant c s h :
  task_invariant id s h →
  (∀ u, u ∈ drawn_ids [c] → jobs s !! u = None) →
  task_invariant id (exec X tts_system c s).2
    (observe h (status_of id (exec X tts_system c s).2)).
Proof.
  unfold task_invariant, status_of. intros Hc Hfresh.
  destruct c as [request timestamp uuid8 elapsed|request uuid now
                |tid timestamp elapsed|tid|now]; simpl.
  - pose proof (sync_storage request timestamp uuid8 elapsed (app s)) as Hs.
    destruct (synthesize_speech X tts_system _ _ _ _ _) as [r st]. simpl in *.
    rewrite Hs. by rewrite observe_same by apply Hc.
  - unfold synthesize_speech_async. simpl in Hfresh.
    destruct (truthy (strip (req_text request))); simpl.
    + destruct (decide (uuid = id)) as [->|Hne].
      * rewrite !lookup_insert_eq. simpl.
        rewrite Hfresh in Hc by (apply list_elem_of_singleton; done). simpl in Hc.
        destruct Hc as [_ [_ ->]]. consistency.
      * rewrite !lookup_insert_ne by done. by rewrite observe_same by apply Hc.
    + by rewrite observe_same by apply Hc.
  - destruct (jobs s !! tid) as [j|] eqn:Ej; simpl;
      [|by rewrite observe_same by apply Hc].
    destruct (decide (tid = id)) as [->|Hne].
    + rewrite Ej in Hc. simpl in Hc.
      pose proof (job_step_own id (job_request j) timestamp elapsed (job_at j)
                    (app s) h Hc) as Hown.
      destruct (job_step X tts_system _ _ _ _ _ _) as [pc st]. simpl in *.
      by rewrite lookup_insert_eq.
    + pose proof (job_step_other tid (job_request j) timestamp elapsed (job_at j)
                    (app s) id Hne) as Hoth.
      destruct (job_step X tts_system _ _ _ _ _ _) as [pc st]. simpl in *.
      rewrite lookup_insert_ne by done. rewrite Hoth.
      by rewrite observe_same by apply Hc.
  - by rewrite observe_same by apply Hc.
  - pose proof (cleanup_lookup now (app s) id) as Hl.
    destruct (cleanup_old_files X now (app s)) as [r st]. simpl in *.
    destruct Hl as [-> | ->]; simpl.
    + unfold observe. by eapply consistent_drop.
    + by rewrite observe_same by apply Hc.
Qed.

(** The identifiers of the background tasks grow by the ones drawn. *)
Lemma exec_jobs_fresh c s u :
  jobs s !! u = None → u ∉ drawn_ids [c] →
  jobs (exec X tts_system c s).2 !! u = None.
Proof.
  intros Hu Hnot.
  destruct c as [request timestamp uuid8 elapsed|request uuid now
                |tid timestamp elapsed|tid|now]; simpl.
  - by destruct (synthesize_speech X tts_system _ _ _ _ _).
  - unfold synthesize_speech_async. simpl in Hnot.
    destruct (truthy (strip (req_text request))); simpl; [|done].
    rewrite lookup_insert_ne; [done|].
    intros ->. apply Hnot, list_elem_of_singleton. done.
  - destruct (jobs s !! tid) as [j|] eqn:Ej; [|done].
    destruct (job_step X tts_system _ _ _ _ _ _) as [pc st]. simpl.
    rewrite lookup_insert_ne; [done|]. congruence.
  - done.
  - by destruct (cleanup_old_files X now (app s)).
Qed.

Lemma drawn_ids_cons c cmds : drawn_ids (c :: cmds) = drawn_ids [c] ++ drawn_ids cmds.
Proof.
  destruct c as [| r ? ? | | |]; simpl; try done.
  by destruct (truthy (strip (req_text r))).
Qed.

(** Polling returns the status that is stored. *)
Lemma exec_poll c s i ts :
  (exec X tts_system c s).1 = SawTask i (Return ts) →
  status_of i s = Some (ts_status ts) ∧ (exec X tts_system c s).2 = s.
Proof.
  destruct c; simpl.
  - by destruct (synthesize_speech X tts_system _ _ _ _ _).
  - by destruct (synthesize_speech_async _ _ _ _).
  - destruct (jobs s !! _); [|done].
    by destruct (job_step X tts_system _ _ _ _ _ _).
  - unfold get_task_status, status_of. intros [= -> H].
    destruct (task_storage (app s) !! i); [|done].
    by injection H as <-.
  - by destruct (cleanup_old_files X _ _).
Qed.

Lemma trace_cons c cmds s :
  trace X tts_system (c :: cmds) s
  = exec X tts_system c s :: trace X tts_system cmds (exec X tts_system c s).2.
Proof. reflexivity. Qed.

Lemma polled_cons os tr :
  polled id (os :: tr)
  = match os.1 with
    | SawTask i (Return ts) =>
        if decide (i = id) then ts_status ts :: polled id tr else polled id tr
    | _ => polled id tr
    end.
Proof.
  unfold polled. simpl.
  destruct os.1 as [|i [ts|]| |]; try done. by case_decide.
Qed.

(** Along every schedule that draws fresh identifiers, from a state that
    satisfies the invariant: the history stays on one of the two chains,
    polling is sorted and returns statuses of the history, and each command
    moves the stored status forward or leaves it. *)
Lemma trace_properties cmds : ∀ s h,
  task_invariant id s h →
  NoDup (drawn_ids cmds) →
  (∀ u, u ∈ drawn_ids cmds → jobs s !! u = None) →
  let tr := trace X tts_system cmds s in
  let h' := foldl observe h (map (λ os, status_of id os.2) tr) in
  (h' `prefix_of` [pending; processing; completed]
   ∨ h' `prefix_of` [pending; processing; failed])
  ∧ (∀ x, x ∈ h → x ∈ h')
  ∧ StronglySorted status_le (polled id tr)
  ∧ Forall (λ x, x ∈ h' ∧ ∀ y, y ∈ h → status_le y x) (polled id tr)
  ∧ (∀ i s1 s2 a b,
       (s :: tr.*2) !! i = Some s1 → (s :: tr.*2) !! S i = Some s2 →
       status_of id s1 = Some a → status_of id s2 = Some b → status_le a b).
Proof.
  induction cmds as [|c cmds IH]; intros s h Hinv Hnd Hfresh.
  - simpl. split; [exact (consistent_chain _ _ _ Hinv)|]. split; [done|].
    split; [constructor|]. split; [constructor|].
    intros i s1 s2 a b _ H2. by destruct i.
  - rewrite drawn_ids_cons in Hnd, Hfresh.
    apply NoDup_app in Hnd as (_ & Hdisj & Hnd).
    pose proof (exec_invariant c s h Hinv) as Hinv1.
    specialize (Hinv1 ltac:(intros u Hu; apply Hfresh, elem_of_app; by left)).
    rewrite trace_cons. cbn [map foldl fmap list_fmap].
    set (s1 := (exec X tts_system c s).2) in *.
    set (h1 := observe h (status_of id s1)) in *.
    assert (Hfresh1 : ∀ u, u ∈ drawn_ids cmds → jobs s1 !! u = None).
    { intros u Hu. apply exec_jobs_fresh; [apply Hfresh, elem_of_app; by right|].
      intros Hin. by apply (Hdisj u). }
    destruct (IH s1 h1 Hinv1 Hnd Hfresh1) as (Hchain & Hsub & Hsorted & Hall & Hsteps).
    assert (Hsub0 : ∀ x, x ∈ h → x ∈ h1) by (intros; by apply observe_mono).
    split; [exact Hchain|]. split; [auto|].
    split; [|split].
    + rewrite polled_cons.
      destruct (exec X tts_system c s).1 as [|i [ts|]| |] eqn:E; try done.
      case_decide as Hi; [subst i|done].
      apply exec_poll in E as [Hst _].
      constructor; [done|].
      assert (Hx : ts_status ts ∈ h1).
      { apply Hsub0. destruct Hinv as [[Hn|Hl] _]; [congruence|].
        apply last_Some_elem_of. unfold status_of in *. congruence. }
      eapply Forall_impl; [exact Hall|]. simpl. intros z [_ Hz]. auto.
    + assert (Hweak : Forall (λ x, x ∈ foldl observe h1
                                     (map (λ os, status_of id os.2)
                                        (trace X tts_system cmds s1))
                                   ∧ ∀ y, y ∈ h → status_le y x)
                        (polled id (trace X tts_system cmds s1))).
      { eapply Forall_impl; [exact Hall|]. simpl. intros x [? Hx]. auto. }
      rewrite polled_cons.
      destruct (exec X tts_system c s).1 as [|i [ts|]| |] eqn:E; try done.
      case_decide as Hi; [subst i|done].
      apply exec_poll in E as [Hst _].
      assert (Hl : last h = Some (ts_status ts)).
      { destruct Hinv as [[Hn|Hl] _]; unfold status_of in *; congruence. }
      constructor; [|done]. split.
      * apply Hsub, Hsub0. by apply last_Some_elem_of.
      * intros y Hy. exact (chain_le h _ y (consistent_chain _ _ _ Hinv) Hl Hy).
    + intros i s2 s3 a b H2 H3 Ha Hb. destruct i as [|i].
      * simpl in H2, H3. injection H2 as <-. injection H3 as <-.
        destruct Hinv as [[Hn|Hl] _]; unfold status_of in *; [congruence|].
        apply (consistent_step_le (job_at <$> jobs s1 !! id) h); [congruence|].
        unfold task_invariant, status_of in Hinv1. subst h1.
        unfold status_of in *. by rewrite Hb in Hinv1.
      * by apply (Hsteps i s2 s3).
Qed.

End TaskStatus.

(** C8, as stated, fails: a poll shows the status of the moment, so the
    polled sequence is no prefix of either chain. A task polled twice before
    it starts and once after it has ended shows pending, pending, completed:
    a value twice, and processing never, although the status went through
    pending, processing, completed. *)
Lemma polled_skips_processing_counterexample :
  let tr := App.trace working_libraries (Make true true Coqui (Some Pyttsx))
              skipping_schedule (App.init empty_world) in
  NoDup (App.drawn_ids skipping_schedule)
  ∧ App.history "0a1b2c3d-0000" tr = [App.pending; App.processing; App.completed]
  ∧ App.polled "0a1b2c3d-0000" tr = [App.pending; App.pending; App.completed]
  ∧ ¬ (App.polled "0a1b2c3d-0000" tr
         `prefix_of` [App.pending; App.processing; App.completed]
       ∨ App.polled "0a1b2c3d-0000" tr
         `prefix_of` [App.pending; App.processing; App.failed]).
Proof.
  intros tr.
  assert (Hp : App.polled "0a1b2c3d-0000" tr
               = [App.pending; App.pending; App.completed])
    by (vm_compute; reflexivity).
  split; [change (NoDup ["0a1b2c3d-0000"]); apply NoDup_singleton|].
  split; [vm_compute; reflexivity|].
  split; [exact Hp|].
  rewrite Hp. intros [[k Hk]|[k Hk]]; discriminate Hk.
Qed.

(** C8, amended. Along every schedule of requests, polls, clean-ups and
    steps of the background tasks in which [uuid4] never repeats an
    identifier, for every task: each command leaves the stored status or
    moves it forward in the order pending < processing < {completed,
    failed}; the values the status takes, one after the other, are a prefix
    of (pending, processing, completed) or of (pending, processing, failed);
    and the statuses that polling returns, in order, never step backward and
    all belong to that prefix (a poll may repeat a value or miss one). *)
Theorem task_status_monotonic
    (X : externals) (tts_system : DualTTSSystem.t) (w0 : world)
    (cmds : list App.command) (task_id : string) :
  NoDup (App.drawn_ids cmds) →
  let tr := App.trace X tts_system cmds (App.init w0) in
  (∀ i s1 s2 a b,
     (App.init w0 :: tr.*2) !! i = Some s1 →
     (App.init w0 :: tr.*2) !! S i = Some s2 →
     App.status_of task_id s1 = Some a →
     App.status_of task_id s2 = Some b →
     App.status_le a b)
  ∧ (App.history task_id tr `prefix_of` [App.pending; App.processing; App.completed]
     ∨ App.history task_id tr `prefix_of` [App.pending; App.processing; App.failed])
  ∧ StronglySorted App.status_le (App.polled task_id tr)
  ∧ (∀ x, x ∈ App.polled task_id tr → x ∈ App.history task_id tr).
Proof.
  intros Hnd tr.
  assert (Hinit : task_invariant task_id (App.init w0) []).
  { split; [by left|]. simpl. by rewrite lookup_empty. }
  destruct (trace_properties X tts_system task_id cmds (App.init w0) [] Hinit Hnd)
    as (Hchain & _ & Hsorted & Hall & Hsteps).
  { intros u _. apply lookup_empty. }
  split; [exact Hsteps|]. split; [exact Hchain|]. split; [exact Hsorted|].
  intros x Hx. rewrite Forall_forall in Hall. by apply Hall.
Qed.

Lemma task_status_monotonic_witness :
  NoDup (App.drawn_ids polling_schedule)
  ∧ StronglySorted App.status_le
      (App.polled "0a1b2c3d-0000"
         (App.trace working_libraries (Make true true Coqui (Some Pyttsx))
            polling_schedule (App.init empty_world))).
Proof.
  assert (H : NoDup (App.drawn_ids polling_schedule)).
  { change (NoDup ["0a1b2c3d-0000"]). apply NoDup_singleton. }
  split; [exact H|].
  exact (proj1 (proj2 (proj2 (task_status_monotonic working_libraries
    (Make true true Coqui (Some Pyttsx)) empty_world polling_schedule
    "0a1b2c3d-0000" H)))).
Defined.

(** The schedule above: polling saw the task pending, processing and
    completed. *)
Example polling_schedule_polled :
  App.polled "0a1b2c3d-0000"
    (App.trace working_libraries (Make true true Coqui (Some Pyttsx))
       polling_schedule (App.init empty_world))
  = [App.pending; App.processing; App.completed].
Proof. vm_compute. reflexivity. Qed.

(** With an identifier drawn twice the record starts again: polling sees
    completed, then pending. *)
Example repeated_id_restarts_the_record :
  ¬ NoDup (App.drawn_ids repeating_schedule)
  ∧ App.polled "0a1b2c3d-0000"
      (App.trace working_libraries (Make true true Coqui (Some Pyttsx))
         repeating_schedule (App.init empty_world))
    = [App.completed; App.pending].
Proof.
  split; [|vm_compute; reflexivity].
  change (¬ NoDup ["0a1b2c3d-0000"; "0a1b2c3d-0000"]).
  intros Hnd. apply NoDup_cons in Hnd as [Hnot _]. apply Hnot. by left.
Qed.

(** * Further properties of the code *)

(** ** The coordinator and the adapters *)

(** X1. [__init__] gives up exactly when neither library loaded. Otherwise
    the primary engine is an available one, the fallback (when there is
    one) is the other engine, and the flags are the ones probed. *)
Theorem init_primary_is_available (coqui_ok pyttsx_ok : bool) :
  (__init__ coqui_ok pyttsx_ok = None ↔ coqui_ok = false ∧ pyttsx_ok = false)
  ∧ ∀ sys, __init__ coqui_ok pyttsx_ok = Some sys →
      available sys (primary sys) = true
      ∧ coqui_available sys = coqui_ok
      ∧ pyttsx_available sys = pyttsx_ok
      ∧ (primary sys = Coqui ↔ coqui_ok = true)
      ∧ ∀ fb, fallback sys = Some fb → fb ≠ primary sys.
Proof.
  split.
  - unfold __init__. destruct coqui_ok, pyttsx_ok; split; try done;
      intros [? ?]; discriminate.
  - intros sys Hinit.
    destruct (init_cases _ _ _ Hinit) as [[-> ->]|(-> & -> & ->)]; simpl;
      repeat split; try done; intros fb [= <-]; done.
Qed.

Lemma init_primary_is_available_witness :
  __init__ false true = Some (Make false true Pyttsx None)
  ∧ available (Make false true Pyttsx None) (primary (Make false true Pyttsx None)) = true.
Proof.
  split; [reflexivity|].
  exact (proj1 (proj2 (init_primary_is_available false true)
                  (Make false true Pyttsx None) eq_refl)).
Defined.

(** X2. On a coordinator built by [__init__], the selectors "auto" and
    "coqui" always select an engine whose availability flag is true. *)
Theorem auto_and_coqui_select_available
    (coqui_ok pyttsx_ok : bool) (sys : DualTTSSystem.t) (engine : string) :
  __init__ coqui_ok pyttsx_ok = Some sys →
  engine = "auto" ∨ engine = "coqui" →
  ∃ e, selected_engine sys engine = Some e ∧ available sys e = true.
Proof.
  intros Hinit Heng.
  destruct (init_cases _ _ _ Hinit) as [[_ ->]|(_ & _ & ->)];
    destruct Heng as [-> | ->]; eexists; split; reflexivity.
Qed.

Lemma auto_and_coqui_select_available_witness :
  __init__ false true = Some (Make false true Pyttsx None)
  ∧ ("coqui" = "auto" ∨ "coqui" = "coqui")
  ∧ ∃ e, selected_engine (Make false true Pyttsx None) "coqui" = Some e
         ∧ available (Make false true Pyttsx None) e = true.
Proof.
  split; [reflexivity|]. split; [by right|].
  exact (auto_and_coqui_select_available false true
           (Make false true Pyttsx None) "coqui" eq_refl (or_intror eq_refl)).
Defined.

(** X3. The result of a request is the disjunction over the calls made,
    and the calls stop at the first success: when the selected engine
    succeeds its result is the request's and no other adapter is entered;
    a request that succeeds has succeeded on the selected engine or, after
    the primary failed, on the fallback. *)
Theorem success_stops_the_attempts
    (X : externals) (sys : DualTTSSystem.t) (t : text) (p engine : string)
    (kw : synth_kwargs) (w : world) (sel : engine_id) :
  selected_engine sys engine = Some sel →
  let first := engine_synthesize X sys sel t p kw w in
  let r := synthesize X sys t p engine kw w in
  (first.1 = true → r = first ∧ calls r.2 = calls w ++ [sel])
  ∧ (r.1 = true →
     first.1 = true
     ∨ ∃ fb, fallback sys = Some fb ∧ sel = primary sys
             ∧ r = engine_synthesize X sys fb t p kw first.2).
Proof.
  intros Hsel first r. subst r. unfold synthesize. rewrite Hsel.
  pose proof (engine_synthesize_calls X sys sel t p kw w) as Hc.
  fold first in Hc |- *. destruct first as [ok w1]. simpl in *.
  split.
  - intros ->. simpl. by destruct (fallback sys).
  - destruct (fallback sys) as [fb|]; [|auto].
    destruct ok; simpl; [auto|].
    case_bool_decide; [|simpl; intros; discriminate].
    intros Hr. right. exists fb. auto.
Qed.

Lemma success_stops_the_attempts_witness :
  let sys := Make true true Coqui (Some Pyttsx) in
  selected_engine sys "auto" = Some Coqui
  ∧ (engine_synthesize working_libraries sys Coqui hello "out.wav"
       default_kwargs empty_world).1 = true
  ∧ calls (synthesize working_libraries sys hello "out.wav" "auto"
             default_kwargs empty_world).2 = calls empty_world ++ [Coqui].
Proof.
  intros sys. split; [reflexivity|]. split; [reflexivity|].
  exact (proj2 (proj1 (success_stops_the_attempts working_libraries sys hello
                         "out.wav" "auto" default_kwargs empty_world Coqui eq_refl)
                  eq_refl)).
Defined.

Lemma coqui_synthesize_props X av t p kw w :
  pyttsx_props (coqui_synthesize X av t p kw w).2 = pyttsx_props w.
Proof.
  unfold coqui_synthesize. destruct av; simpl; [|done].
  destruct (CoquiTTSEngine._get_style_params _ _); [|done].
  by destruct (tts_to_file X _ _ _ _).
Qed.

(** X4. The rate, volume and voice of the pyttsx3 engine change only in
    pyttsx3's own [synthesize]: a request whose calls are all on Coqui
    leaves them as they were. *)
Theorem engine_properties_change_only_in_pyttsx
    (X : externals) (sys : DualTTSSystem.t) (t : text) (p engine : string)
    (kw : synth_kwargs) (w : world) (l : list engine_id) :
  calls (synthesize X sys t p engine kw w).2 = calls w ++ l →
  Pyttsx ∉ l →
  pyttsx_props (synthesize X sys t p engine kw w).2 = pyttsx_props w.
Proof.
  unfold synthesize.
  destruct (selected_engine sys engine) as [sel|]; [|done].
  pose proof (engine_synthesize_calls X sys sel t p kw w) as H1.
  assert (Hcoqui : ∀ w0, pyttsx_props (engine_synthesize X sys Coqui t p kw w0).2
                         = pyttsx_props w0)
    by (intros; apply coqui_synthesize_props).
  assert (Hone : ∀ e w0 w', calls w' = calls w0 ++ [e] → ∀ l',
            calls w' = calls w0 ++ l' → Pyttsx ∉ l' → e = Coqui).
  { intros e w0 w' He l' Hl Hnot. rewrite He in Hl.
    apply app_inv_head in Hl. subst l'. destruct e; [done|].
    exfalso. apply Hnot. apply list_elem_of_singleton. done. }
  destruct (engine_synthesize X sys sel t p kw w) as [ok w1] eqn:E1. simpl in H1.
  assert (Hsingle : calls w1 = calls w ++ l → Pyttsx ∉ l →
                    pyttsx_props w1 = pyttsx_props w).
  { intros Hl Hnot. rewrite (Hone sel w w1 H1 l Hl Hnot) in E1.
    specialize (Hcoqui w). rewrite E1 in Hcoqui. done. }
  destruct (fallback sys) as [fb|]; [|exact Hsingle].
  destruct (negb ok && bool_decide (sel = primary sys)); [|exact Hsingle].
  pose proof (engine_synthesize_calls X sys fb t p kw w1) as H2.
  rewrite H1, <- app_assoc in H2. simpl in H2.
  intros Hl Hnot. rewrite H2 in Hl. apply app_inv_head in Hl. subst l.
  assert (sel = Coqui ∧ fb = Coqui) as [-> ->].
  { destruct sel, fb; try done; exfalso; apply Hnot;
      repeat (apply elem_of_cons; (by left) || right);
      apply elem_of_cons; by left. }
  rewrite Hcoqui. specialize (Hcoqui w). rewrite E1 in Hcoqui. done.
Qed.

Lemma engine_properties_change_only_in_pyttsx_witness :
  let sys := Make true true Coqui (Some Pyttsx) in
  calls (synthesize working_libraries sys hello "out.wav" "auto"
           default_kwargs empty_world).2 = calls empty_world ++ [Coqui]
  ∧ (Pyttsx ∉ [Coqui])
  ∧ pyttsx_props (synthesize working_libraries sys hello "out.wav" "auto"
                    default_kwargs empty_world).2 = pyttsx_props empty_world.
Proof.
  intros sys.
  assert (H1 : calls (synthesize working_libraries sys hello "out.wav" "auto"
                        default_kwargs empty_world).2 = calls empty_world ++ [Coqui])
    by reflexivity.
  assert (H2 : Pyttsx ∉ [Coqui]).
  { intros Hin%list_elem_of_singleton. discriminate. }
  split; [exact H1|]. split; [exact H2|].
  exact (engine_properties_change_only_in_pyttsx working_libraries sys hello
           "out.wav" "auto" default_kwargs empty_world [Coqui] H1 H2).
Defined.

(** X5. The optional speed of a request has no effect: no adapter reads it.
    The optional voice has no effect on Coqui's [synthesize]. *)
Theorem speed_override_is_ignored
    (X : externals) (sys : DualTTSSystem.t) (t : text) (p engine style : string)
    (intensity : Z) (voice voice' : option string) (speed speed' : option float)
    (w : world) :
  synthesize X sys t p engine (Kwargs style intensity voice speed) w
  = synthesize X sys t p engine (Kwargs style intensity voice speed') w
  ∧ coqui_synthesize X (coqui_available sys) t p (Kwargs style intensity voice speed) w
    = coqui_synthesize X (coqui_available sys) t p (Kwargs style intensity voice' speed') w.
Proof.
  split; [|reflexivity].
  assert (He : ∀ e w0,
    engine_synthesize X sys e t p (Kwargs style intensity voice speed) w0
    = engine_synthesize X sys e t p (Kwargs style intensity voice speed') w0)
    by (intros [] w0; reflexivity).
  unfold synthesize. destruct (selected_engine sys engine) as [sel|]; [|done].
  rewrite He. destruct (engine_synthesize X sys sel t p _ w) as [ok w1].
  destruct (fallback sys) as [fb|]; [|done]. by rewrite He.
Qed.

(** ** The command line and the synchronous endpoint *)

Lemma validate_inputs_not_blank X t out now w w1 :
  CLI.validate_inputs X t out now w = (Some true, w1) → ¬ blank t.
Proof.
  unfold CLI.validate_inputs. intros Hv.
  destruct (truthy (strip t)) eqn:Et; simpl in Hv; [|by simplify_eq].
  intros Hb%strip_blank. congruence.
Qed.

(** X6. [validate_inputs] accepts only a text with a character that is not
    whitespace; when it accepts, the destination file exists afterwards with
    the size it had (0 when it was missing) and the time of the call, every
    other file and the rest of the world being as before; when it does not
    accept, the world is as before. *)
Theorem validate_inputs_touches_destination
    (X : externals) (t : text) (out : string) (now : Z) (w w1 : world)
    (r : option bool) :
  CLI.validate_inputs X t out now w = (r, w1) →
  (r = Some true →
     ¬ blank t
     ∧ files w1 !! out
       = Some {| st_size := default 0 (st_size <$> files w !! out); st_mtime := now |}
     ∧ (∀ p, p ≠ out → files w1 !! p = files w !! p)
     ∧ pyttsx_props w1 = pyttsx_props w
     ∧ calls w1 = calls w)
  ∧ (r ≠ Some true → w1 = w).
Proof.
  unfold CLI.validate_inputs. intros Hv.
  destruct (truthy (strip t)) eqn:Et; simpl in Hv.
  - destruct (negb (mkdir_parent_ok X out (files w))); [by simplify_eq|].
    destruct (touch_ok X out (files w)); [|by simplify_eq].
    injection Hv as <- <-. split; [|done]. intros _.
    split.
    { intros Hb%strip_blank. congruence. }
    simpl. rewrite lookup_insert_eq.
    split; [by destruct (files w !! out)|].
    split; [|done]. intros p Hp. by rewrite lookup_insert_ne.
  - by simplify_eq.
Qed.

Lemma validate_inputs_touches_destination_witness :
  CLI.validate_inputs working_libraries hello "out.wav" 1000 empty_world
  = (Some true, set_files {["out.wav" := FileInfo 0 1000]} empty_world)
  ∧ files (set_files {["out.wav" := FileInfo 0 1000]} empty_world) !! "out.wav"
    = Some (FileInfo 0 1000).
Proof.
  assert (H : CLI.validate_inputs working_libraries hello "out.wav" 1000 empty_world
              = (Some true, set_files {["out.wav" := FileInfo 0 1000]} empty_world))
    by reflexivity.
  split; [exact H|].
  exact (proj1 (proj2 (proj1 (validate_inputs_touches_destination working_libraries
    hello "out.wav" 1000 empty_world _ _ H) eq_refl))).
Defined.

(** X7. A run of [main] that is asked to synthesize ends with status 0 only
    after the whole chain went through: both arguments given, a text with a
    character that is not whitespace, an intensity in 0..100, a destination
    that [validate_inputs] accepted, and a coordinator that reported
    success. With [--status] or [--list-voices] the world is left as it
    was; with [--list-voices] alone, status 0 means that listing the voices
    did not raise. *)
Theorem main_exit_zero
    (X : externals) (lower : string → string) (voices : list Voices.voice)
    (a : CLI.args) (coqui_ok pyttsx_ok : bool) (now : Z) (w w2 : world) :
  CLI.main X lower voices a coqui_ok pyttsx_ok now w = (0, w2) →
  (CLI.status a = true ∨ CLI.list_voices a = true → w2 = w)
  ∧ (CLI.status a = false → CLI.list_voices a = true →
     is_Some (Voices.list_voices lower pyttsx_ok voices))
  ∧ (CLI.status a = false → CLI.list_voices a = false →
     ∃ sys t out w1,
       __init__ coqui_ok pyttsx_ok = Some sys
       ∧ CLI.text_arg a = Some t ∧ CLI.output a = Some out
       ∧ ¬ blank t ∧ out ≠ ""
       ∧ 0 ≤ CLI.intensity a ≤ 100
       ∧ CLI.validate_inputs X t out now w = (Some true, w1)
       ∧ synthesize X sys t out (CLI.engine a)
           (Kwargs (CLI.style a) (CLI.intensity a) (CLI.voice a) None) w1
         = (true, w2)).
Proof.
  unfold CLI.main. intros Hm.
  destruct (__init__ coqui_ok pyttsx_ok) as [sys|] eqn:Hinit; [|done].
  assert (Hp : pyttsx_available sys = pyttsx_ok).
  { by destruct (init_cases _ _ _ Hinit) as [[_ ->]|(_ & -> & ->)]. }
  destruct (CLI.status a).
  { injection Hm as <-. split; [done|]. done. }
  destruct (CLI.list_voices a).
  { rewrite Hp in Hm.
    destruct (Voices.list_voices lower pyttsx_ok voices); [|done].
    injection Hm as <-. split; [done|]. split; [eauto|done]. }
  split; [intros [?|?]; done|]. split; [done|]. intros _ _.
  destruct (CLI.text_arg a) as [t|]; [|by destruct (CLI.output a)].
  destruct (CLI.output a) as [out|]; [|done].
  destruct (negb (truthy t) || bool_decide (out = "")) eqn:E1; [done|].
  apply orb_false_iff in E1 as [_ Hout%bool_decide_eq_false].
  destruct (_ && _) eqn:E2; [|done]. simpl in Hm.
  apply andb_true_iff in E2 as [?%Z.leb_le ?%Z.leb_le].
  destruct (CLI.validate_inputs X t out now w) as [[[]|] w1] eqn:Ev; try done.
  destruct (synthesize X sys t out _ _ w1) as [ok w2'] eqn:Es.
  destruct ok; [|done]. injection Hm as <-.
  exists sys, t, out, w1. repeat split; try done; try lia.
  by apply (validate_inputs_not_blank X t out now w w1).
Qed.

Lemma main_exit_zero_witness :
  ∃ w2,
    CLI.main working_libraries ascii_lower sample_voices
      (args_for hello "out.wav" 50) true true 7 empty_world
    = (0, w2)
    ∧ ∃ sys t out w1,
        __init__ true true = Some sys
        ∧ CLI.text_arg (args_for hello "out.wav" 50) = Some t
        ∧ CLI.output (args_for hello "out.wav" 50) = Some out
        ∧ ¬ blank t ∧ out ≠ ""
        ∧ 0 ≤ CLI.intensity (args_for hello "out.wav" 50) ≤ 100
        ∧ CLI.validate_inputs working_libraries t out 7 empty_world = (Some true, w1)
        ∧ synthesize working_libraries sys t out "auto"
            (Kwargs "neutral" 50 None None) w1 = (true, w2).
Proof.
  eexists.
  assert (H : CLI.main working_libraries ascii_lower sample_voices
                (args_for hello "out.wav" 50) true true 7 empty_world
              = (0, (CLI.main working_libraries ascii_lower sample_voices
                       (args_for hello "out.wav" 50) true true 7 empty_world).2))
    by reflexivity.
  split; [exact H|].
  exact (proj2 (proj2 (main_exit_zero working_libraries ascii_lower sample_voices
                         (args_for hello "out.wav" 50) true true 7 empty_world _ H))
           eq_refl eq_refl).
Defined.

(** X8. Every synchronous request is counted once, answered or not, and
    leaves the task records alone. An answer is a success whose URL names a
    file that exists under [static/audio], and it is given only for a text
    of 1 to 1000 characters that is not blank. *)
Theorem synchronous_answer_names_a_file
    (X : externals) (tts_system : DualTTSSystem.t) (request : TTSRequest)
    (timestamp uuid8 : string) (elapsed : float) (st : App.state) :
  let r := App.synthesize_speech X tts_system request timestamp uuid8 elapsed st in
  App.request_counter r.2 = App.request_counter st + 1
  ∧ App.task_storage r.2 = App.task_storage st
  ∧ ∀ resp, r.1 = Return resp →
      success resp = true
      ∧ task_id resp = None
      ∧ ¬ blank (req_text request)
      ∧ (length (req_text request) ≤ 1000)%nat
      ∧ ∃ filename,
          audio_url resp = Some ("/static/audio/" +:+ filename)
          ∧ is_Some (files (App.env r.2) !! ("static/audio/" +:+ filename)).
Proof.
  intros r. subst r. unfold App.synthesize_speech.
  destruct (truthy (strip (req_text request))) eqn:Et; simpl; [|done].
  assert (Hnb : ¬ blank (req_text request)).
  { intros Hb%strip_blank. congruence. }
  destruct (_ <? _)%nat eqn:El; [done|]. apply Nat.ltb_ge in El.
  destruct (negb (mkdir_parent_ok X _ _)); [done|].
  destruct (synthesize X tts_system _ _ _ _ _) as [ok w].
  destruct (ok && _) eqn:E; [|done]. simpl.
  apply andb_true_iff in E as [_ Hf%bool_decide_eq_true].
  split; [done|]. split; [done|].
  intros resp [= <-]. simpl. repeat split; try done. eauto.
Qed.

Lemma synchronous_answer_names_a_file_witness :
  let r := App.synthesize_speech working_libraries (Make true true Coqui (Some Pyttsx))
             (request_for hello 50) "20240101_120000" "0a1b2c3d" 0.25%float fresh_app in
  ∃ resp, r.1 = Return resp
          ∧ ∃ filename,
              audio_url resp = Some ("/static/audio/" +:+ filename)
              ∧ is_Some (files (App.env r.2) !! ("static/audio/" +:+ filename)).
Proof.
  intros r. eexists. split; [reflexivity|].
  exact (proj2 (proj2 (proj2 (proj2 (proj2 (proj2
    (synchronous_answer_names_a_file working_libraries
       (Make true true Coqui (Some Pyttsx)) (request_for hello 50)
       "20240101_120000" "0a1b2c3d" 0.25%float fresh_app)) _ eq_refl))))).
Defined.

(** ** Clean-up, counting and the task records *)

Section CleanUp.

Import App.

Variable X : externals.

Lemma filter_lookup_bool {A} (f : string * A → bool) (m : gmap string A) k :
  filter (λ kv, f kv = false) m !! k
  = (x ← m !! k; if f (k, x) then None else Some x).
Proof.
  destruct (m !! k) as [x|] eqn:E; simpl.
  - destruct (f (k, x)) eqn:Ef.
    + apply map_lookup_filter_None. right. intros x' Hx'. simplify_eq. simpl.
      congruence.
    + by apply map_lookup_filter_Some_2.
  - apply map_lookup_filter_None. by left.
Qed.

Lemma filter_size_split {A} (f : string * A → bool) (m : gmap string A) :
  size m = (size (filter (λ kv, f kv = true) m)
            + size (filter (λ kv, f kv = false) m))%nat.
Proof.
  rewrite <- (map_filter_union_complement (λ kv, f kv = true) m) at 1.
  rewrite map_size_disj_union by apply map_disjoint_filter_complement.
  f_equal. f_equal. apply map_filter_ext. intros k x _. simpl.
  destruct (f (k, x)); split; congruence.
Qed.

(** X9. With the audio directory in place, a clean-up at time [now] removes
    exactly the task records created more than an hour before [now] and
    exactly the [.wav] files of [static/audio] last modified more than an
    hour before [now]: every other record and file is untouched, the counts
    reported are the numbers removed, and nothing else changes. Without the
    directory nothing is removed, old task records included. *)
Theorem cleanup_removes_only_the_old (now : Z) (st : state) :
  let r := cleanup_old_files X now st in
  (audio_dir_exists X (files (env st)) = false → r = (NoAudioDirectory, st))
  ∧ (audio_dir_exists X (files (env st)) = true →
     (∀ id, task_storage r.2 !! id
            = (t ← task_storage st !! id;
               if created_at t <? now - one_hour then None else Some t))
     ∧ (∀ p, files (env r.2) !! p
             = (i ← files (env st) !! p;
                if is_audio_wav p && (st_mtime i <? now - one_hour)
                then None else Some i))
     ∧ (∃ n m, r.1 = CleanedUp n m
               ∧ size (files (env st)) = (n + size (files (env r.2)))%nat
               ∧ size (task_storage st) = (m + size (task_storage r.2))%nat)
     ∧ request_counter r.2 = request_counter st
     ∧ pyttsx_props (env r.2) = pyttsx_props (env st)
     ∧ calls (env r.2) = calls (env st)).
Proof.
  intros r. subst r. unfold cleanup_old_files. split.
  - by intros ->.
  - intros ->. simpl. split; [|split; [|split]].
    + intros id.
      by rewrite (filter_lookup_bool (λ kv, created_at kv.2 <? now - one_hour)).
    + intros p.
      by rewrite (filter_lookup_bool
                    (λ kv, is_audio_wav kv.1 && (st_mtime kv.2 <? now - one_hour))).
    + eexists _, _. split; [reflexivity|]. split.
      * apply (filter_size_split
                 (λ kv, is_audio_wav kv.1 && (st_mtime kv.2 <? now - one_hour))).
      * apply (filter_size_split (λ kv, created_at kv.2 <? now - one_hour)).
    + done.
Qed.

End CleanUp.

Lemma cleanup_removes_only_the_old_witness :
  audio_dir_exists working_libraries (files (App.env fresh_app)) = true
  ∧ ∀ id, App.task_storage (App.cleanup_old_files working_libraries 7 fresh_app).2 !! id
          = (t ← App.task_storage fresh_app !! id;
             if App.created_at t <? 7 - App.one_hour then None else Some t).
Proof.
  split; [reflexivity|].
  exact (proj1 (proj2 (cleanup_removes_only_the_old working_libraries 7 fresh_app)
                  eq_refl)).
Defined.

Section CleanUpTwice.

Import App.

Variable X : externals.

Lemma filter_bool_idemp {A} (f : string * A → bool) (m : gmap string A) :
  filter (λ kv, f kv = false) (filter (λ kv, f kv = false) m)
  = filter (λ kv, f kv = false) m.
Proof.
  apply map_eq. intros k. rewrite !filter_lookup_bool.
  destruct (m !! k) as [x|]; simpl; [|done].
  destruct (f (k, x)) eqn:E; simpl; [done|]. by rewrite E.
Qed.

(** X10. A clean-up repeated at the same time finds nothing more to remove:
    the state after two clean-ups is the state after one. *)
Theorem cleanup_twice (now : Z) (st : state) :
  (cleanup_old_files X now (cleanup_old_files X now st).2).2
  = (cleanup_old_files X now st).2.
Proof.
  unfold cleanup_old_files.
  destruct (audio_dir_exists X (files (env st))) eqn:E1; simpl; [|by rewrite E1].
  unfold set_storage, set_env, set_files. simpl.
  rewrite (filter_bool_idemp (λ kv, created_at kv.2 <? now - one_hour)).
  rewrite (filter_bool_idemp
             (λ kv, is_audio_wav kv.1 && (st_mtime kv.2 <? now - one_hour))).
  by destruct (negb _).
Qed.

End CleanUpTwice.

Lemma synchronous_counter_aux X tts_system request timestamp uuid8 elapsed st :
  App.request_counter
    (App.synthesize_speech X tts_system request timestamp uuid8 elapsed st).2
  = App.request_counter st + 1.
Proof.
  unfold App.synthesize_speech.
  destruct (negb (truthy (strip (req_text request)))); [done|].
  destruct (_ <? _)%nat; [done|].
  destruct (negb (mkdir_parent_ok X _ _)); [done|].
  destruct (synthesize X tts_system _ _ _ _ _) as [ok w].
  by destruct (ok && _).
Qed.

Section Counting.

Import App.

Variable X : externals.
Variable tts_system : DualTTSSystem.t.

Lemma job_step_counter tid request timestamp elapsed pc st :
  request_counter (job_step X tts_system tid request timestamp elapsed pc st).2
  = request_counter st.
Proof.
  assert (Hu : ∀ next f,
    request_counter (match update_task tid f st with
                     | Some st' => (next, st')
                     | None => (Handler (KeyError tid), st)
                     end).2 = request_counter st).
  { intros next f. unfold update_task.
    by destruct (task_storage st !! tid). }
  destruct pc; simpl; try done; try apply Hu.
  - destruct (negb (mkdir_parent_ok X _ _)); [done|apply Hu].
  - by destruct (DualTTSSystem.synthesize X tts_system _ _ _ _ _).
  - destruct ok; [destruct (files (env st) !! _)|]; apply Hu.
  - unfold update_task. by destruct (task_storage st !! tid).
Qed.

Lemma exec_counter c s :
  request_counter (app (exec X tts_system c s).2)
  = request_counter (app s) + counted [c].
Proof.
  destruct c as [request timestamp uuid8 elapsed|request uuid now
                |tid timestamp elapsed|tid|now]; simpl.
  - pose proof (synchronous_counter_aux X tts_system request timestamp uuid8
                  elapsed (app s)) as H.
    destruct (synthesize_speech X tts_system _ _ _ _ _). simpl in *. lia.
  - unfold synthesize_speech_async.
    destruct (negb (truthy (strip (req_text request)))); simpl; lia.
  - destruct (jobs s !! tid) as [j|]; [|simpl; lia].
    pose proof (job_step_counter tid (job_request j) timestamp elapsed (job_at j)
                  (app s)) as H.
    destruct (job_step X tts_system _ _ _ _ _ _). simpl in *. lia.
  - lia.
  - unfold cleanup_old_files.
    destruct (negb (audio_dir_exists X _)); simpl; lia.
Qed.

(** X11. The request counter counts the synthesis requests, synchronous and
    asynchronous, accepted and rejected alike, and nothing else: after any
    schedule it has grown by their number; polls, clean-ups and the
    background tasks leave it. *)
Theorem request_counter_counts_requests (cmds : list command) (s : system) :
  request_counter (app (final X tts_system cmds s))
  = request_counter (app s) + counted cmds.
Proof.
  revert s. induction cmds as [|c cmds IH]; intros s; [simpl; lia|].
  unfold final in *. simpl foldl. rewrite IH, exec_counter.
  destruct c; simpl; lia.
Qed.

End Counting.

Section Records.

Import App.

Variable X : externals.
Variable tts_system : DualTTSSystem.t.

Ltac records :=
  unfold record_at in *; simpl in *;
  intuition (simplify_eq/=; eauto; try congruence).

Lemma record_at_well_formed pc t : record_at pc (Some t) → well_formed t.
Proof.
  unfold record_at, well_formed, shape.
  intros [(Hr & He & H)|(_ & Hp & [(-> & ? & ?)|(-> & ? & ?)])]; [|done|done].
  destruct pc as [[]|]; try done; destruct H as [-> H]; auto.
Qed.

Lemma job_step_record tid request timestamp elapsed pc st :
  record_at (Some pc) (task_storage st !! tid) →
  let r := job_step X tts_system tid request timestamp elapsed pc st in
  record_at (Some r.1) (task_storage r.2 !! tid).
Proof.
  intros Hc. destruct pc; simpl.
  - destruct (write_cases tid (set_status processing) st StatusWritten)
      as [(t & Ht & -> & ->)|[Ht ->]]; rewrite Ht in *; simpl; [|rewrite Ht];
      records.
  - destruct (write_cases tid (set_progress 10) st Progress10)
      as [(t & Ht & -> & ->)|[Ht ->]]; rewrite Ht in *; simpl; [|rewrite Ht];
      records.
  - destruct (negb (mkdir_parent_ok X _ _)).
    { simpl. destruct (task_storage st !! tid); records. }
    match goal with |- context [update_task tid ?f st] =>
      destruct (write_cases tid f st
        (Progress30 ("tts_async_" +:+ timestamp +:+ "_" +:+ String.substring 0 8 tid +:+ ".wav")))
        as [(t & Ht & -> & ->)|[Ht ->]] end; rewrite Ht in *; simpl; [|rewrite Ht];
      records.
  - destruct (DualTTSSystem.synthesize X tts_system _ _ _ _ _) as [ok w].
    simpl. destruct (task_storage st !! tid); records.
  - assert (Hend : ∀ f,
      (∀ t, result t = None → error t = None →
            progress (f t) = 100
            ∧ (status (f t) = completed ∧ is_Some (result (f t)) ∧ error (f t) = None
               ∨ status (f t) = failed ∧ result (f t) = None ∧ is_Some (error (f t)))) →
      let r := match update_task tid f st with
               | Some st' => (Finished, st')
               | None => (Handler (KeyError tid), st)
               end in
      record_at (Some r.1) (task_storage r.2 !! tid)).
    { intros f Hf r. subst r.
      destruct (write_cases tid f st Finished)
        as [(t & Ht & -> & ->)|[Ht ->]]; rewrite Ht in *; simpl; [|by rewrite Ht].
      right. split; [done|]. apply Hf; records. }
    destruct ok; [destruct (files (env st) !! _)|]; apply Hend; intros t Hr He;
      simpl; rewrite ?Hr, ?He; eauto 10.
  - destruct (task_storage st !! tid) as [t|] eqn:Et.
    + unfold update_task. rewrite Et. simpl. rewrite lookup_insert_eq.
      right. simpl. destruct Hc as [(Hr & He & _)|(? & _)]; [|done].
      rewrite Hr. eauto 10.
    + unfold update_task. rewrite Et. simpl. by rewrite Et.
  - done.
  - done.
Qed.

(** Every command keeps the record of every task in step with the place of
    its background task. *)
Lemma exec_record id c s :
  record_at (job_at <$> jobs s !! id) (task_storage (app s) !! id) →
  (∀ u, u ∈ drawn_ids [c] → jobs s !! u = None) →
  record_at (job_at <$> jobs (exec X tts_system c s).2 !! id)
    (task_storage (app (exec X tts_system c s).2) !! id).
Proof.
  intros Hc Hfresh.
  destruct c as [request timestamp uuid8 elapsed|request uuid now
                |tid timestamp elapsed|tid|now]; simpl.
  - pose proof (sync_storage X tts_system request timestamp uuid8 elapsed (app s)) as Hs.
    destruct (synthesize_speech X tts_system _ _ _ _ _) as [r st]. simpl in *.
    by rewrite Hs.
  - unfold synthesize_speech_async. simpl in Hfresh.
    destruct (truthy (strip (req_text request))); simpl; [|done].
    destruct (decide (uuid = id)) as [->|Hne].
    + rewrite !lookup_insert_eq. simpl. left. done.
    + by rewrite !lookup_insert_ne.
  - destruct (jobs s !! tid) as [j|] eqn:Ej; simpl; [|done].
    destruct (decide (tid = id)) as [->|Hne].
    + rewrite Ej in Hc. simpl in Hc.
      pose proof (job_step_record id (job_request j) timestamp elapsed (job_at j)
                    (app s) Hc) as Hown.
      destruct (job_step X tts_system _ _ _ _ _ _) as [pc st]. simpl in *.
      by rewrite lookup_insert_eq.
    + pose proof (job_step_other X tts_system tid (job_request j) timestamp elapsed
                    (job_at j) (app s) id Hne) as Hoth.
      destruct (job_step X tts_system _ _ _ _ _ _) as [pc st]. simpl in *.
      rewrite lookup_insert_ne by done. by rewrite Hoth.
  - done.
  - pose proof (cleanup_lookup X now (app s) id) as Hl.
    destruct (cleanup_old_files X now (app s)) as [r st]. simpl in *.
    destruct Hl as [-> | ->]; done.
Qed.

Lemma trace_records cmds : ∀ s,
  (∀ id, record_at (job_at <$> jobs s !! id) (task_storage (app s) !! id)) →
  NoDup (drawn_ids cmds) →
  (∀ u, u ∈ drawn_ids cmds → jobs s !! u = None) →
  ∀ os, os ∈ trace X tts_system cmds s →
  ∀ id, record_at (job_at <$> jobs os.2 !! id) (task_storage (app os.2) !! id).
Proof.
  induction cmds as [|c cmds IH]; intros s Hinv Hnd Hfresh os Hos.
  - by apply not_elem_of_nil in Hos.
  - rewrite drawn_ids_cons in Hnd, Hfresh.
    apply NoDup_app in Hnd as (_ & Hdisj & Hnd).
    assert (Hinv1 : ∀ id, record_at
              (job_at <$> jobs (exec X tts_system c s).2 !! id)
              (task_storage (app (exec X tts_system c s).2) !! id)).
    { intros id. apply exec_record; [done|].
      intros u Hu. apply Hfresh, elem_of_app. by left. }
    rewrite trace_cons in Hos. apply elem_of_cons in Hos as [->|Hos]; [done|].
    apply (IH (exec X tts_system c s).2); try done.
    intros u Hu. apply exec_jobs_fresh; [apply Hfresh, elem_of_app; by right|].
    intros Hin. by apply (Hdisj u).
Qed.

End Records.

(** X12. Along every schedule in which [uuid4] never repeats an identifier,
    every task record that is stored has the shape of its status: pending
    with progress 0, processing with progress 0, 10 or 30, both without
    result and error; completed with progress 100, a result and no error;
    failed with progress 100, an error and no result. So has every answer
    to a poll. *)
Theorem task_records_are_well_formed
    (X : externals) (tts_system : DualTTSSystem.t) (w0 : world)
    (cmds : list App.command) :
  NoDup (App.drawn_ids cmds) →
  ∀ os, os ∈ App.trace X tts_system cmds (App.init w0) →
    (∀ id t, App.task_storage (App.app os.2) !! id = Some t → well_formed t)
    ∧ (∀ id ts, os.1 = App.SawTask id (Return ts) →
         shape (App.ts_status ts) (App.ts_progress ts) (App.ts_result ts)
           (App.ts_error ts)).
Proof.
  intros Hnd.
  assert (Hinit : ∀ id, record_at
            (App.job_at <$> App.jobs (App.init w0) !! id)
            (App.task_storage (App.app (App.init w0)) !! id)).
  { intros id. simpl. by rewrite lookup_empty. }
  assert (Hfresh : ∀ u, u ∈ App.drawn_ids cmds → App.jobs (App.init w0) !! u = None).
  { intros u _. apply lookup_empty. }
  assert (Hall : ∀ s os, os ∈ App.trace X tts_system cmds s →
            ∃ c s', os = App.exec X tts_system c s').
  { clear. induction cmds as [|c cmds IH]; intros s os Hos.
    - by apply not_elem_of_nil in Hos.
    - rewrite trace_cons in Hos. apply elem_of_cons in Hos as [->|Hos]; eauto. }
  intros os Hos.
  pose proof (trace_records X tts_system cmds (App.init w0) Hinit Hnd Hfresh os Hos)
    as Hrec.
  assert (Hwf : ∀ id t, App.task_storage (App.app os.2) !! id = Some t → well_formed t).
  { intros id t Ht. specialize (Hrec id). rewrite Ht in Hrec.
    by eapply record_at_well_formed. }
  split; [exact Hwf|].
  intros id ts Hobs.
  destruct (Hall _ _ Hos) as (c & s' & ->).
  apply exec_poll in Hobs as Hpoll. destruct Hpoll as [_ Hsame].
  destruct c; simpl in Hobs; try (by destruct (App.synthesize_speech _ _ _ _ _ _ _));
    try (by destruct (App.synthesize_speech_async _ _ _ _));
    try (by destruct (App.cleanup_old_files _ _ _)).
  - destruct (App.jobs s' !! _); [|done].
    by destruct (App.job_step _ _ _ _ _ _ _ _).
  - simpl in Hwf. unfold App.get_task_status in Hobs.
    injection Hobs as -> Hobs.
    destruct (App.task_storage (App.app s') !! id) as [t|] eqn:Et; [|done].
    injection Hobs as <-. simpl.
    exact (Hwf id t Et).
Qed.

Lemma task_records_are_well_formed_witness :
  NoDup (App.drawn_ids polling_schedule)
  ∧ ∀ os, os ∈ App.trace working_libraries (Make true true Coqui (Some Pyttsx))
                 polling_schedule (App.init empty_world) →
      ∀ id t, App.task_storage (App.app os.2) !! id = Some t → well_formed t.
Proof.
  assert (H : NoDup (App.drawn_ids polling_schedule)).
  { change (NoDup ["0a1b2c3d-0000"]). apply NoDup_singleton. }
  split; [exact H|]. intros os Hos.
  exact (proj1 (task_records_are_well_formed working_libraries
                  (Make true true Coqui (Some Pyttsx)) empty_world polling_schedule
                  H os Hos)).
Defined.

Lemma update_task_Some tid f st t :
  App.task_storage st !! tid = Some t →
  App.update_task tid f st
  = Some (App.set_storage (<[tid := f t]> (App.task_storage st)) st).
Proof. intros Ht. unfold App.update_task. by rewrite Ht. Qed.

(** X13. A background task that runs without interruption on a record that
    is there always comes to an end within five steps: the record then has
    progress 100 and is completed, with the URL and the size of the file,
    exactly when the directory could be made, the coordinator reported
    success and the file exists; otherwise it is failed, with an error.
    The records of the other tasks are untouched. *)
Theorem background_task_runs_to_an_end
    (X : externals) (tts_system : DualTTSSystem.t) (tid : string)
    (request : TTSRequest) (timestamp : string) (elapsed : float)
    (st : App.state) (t : App.task) :
  App.task_storage st !! tid = Some t →
  let filename :=
    "tts_async_" +:+ timestamp +:+ "_" +:+ String.substring 0 8 tid +:+ ".wav" in
  let output_path := "static/audio/" +:+ filename in
  let syn := synthesize X tts_system (req_text request) output_path
               (req_engine request) (kwargs_of request) (App.env st) in
  let made := mkdir_parent_ok X output_path (files (App.env st)) in
  let r := job_run X tts_system 5 tid request timestamp elapsed App.AtStart st in
  r.1 = App.Finished
  ∧ (∀ id, id ≠ tid → App.task_storage r.2 !! id = App.task_storage st !! id)
  ∧ ∃ t', App.task_storage r.2 !! tid = Some t'
          ∧ App.progress t' = 100
          ∧ App.created_at t' = App.created_at t
          ∧ match files syn.2 !! output_path with
            | Some info =>
                if made && syn.1 then
                  App.status t' = App.completed
                  ∧ App.result t'
                    = Some {| App.result_audio_url := "/static/audio/" +:+ filename;
                              App.result_processing_time := elapsed;
                              App.result_file_size := st_size info |}
                else App.status t' = App.failed ∧ is_Some (App.error t')
            | None => App.status t' = App.failed ∧ is_Some (App.error t')
            end.
Proof.
  intros Ht filename output_path syn made r.
  assert (Hr : ∃ stF, r = (App.Finished, stF)
    ∧ (∀ id, id ≠ tid → App.task_storage stF !! id = App.task_storage st !! id)
    ∧ ∃ t', App.task_storage stF !! tid = Some t'
          ∧ App.progress t' = 100
          ∧ App.created_at t' = App.created_at t
          ∧ match files syn.2 !! output_path with
            | Some info =>
                if made && syn.1 then
                  App.status t' = App.completed
                  ∧ App.result t'
                    = Some {| App.result_audio_url := "/static/audio/" +:+ filename;
                              App.result_processing_time := elapsed;
                              App.result_file_size := st_size info |}
                else App.status t' = App.failed ∧ is_Some (App.error t')
            | None => App.status t' = App.failed ∧ is_Some (App.error t')
            end);
    [|destruct Hr as (stF & -> & Hr); split; [done|exact Hr]].
  subst r. unfold job_run.
  (* status = "processing" *)
  unfold App.job_step at 1. rewrite (update_task_Some _ _ _ _ Ht).
  set (st1 := App.set_storage _ st).
  assert (H1 : App.task_storage st1 !! tid = Some (App.set_status App.processing t))
    by apply lookup_insert_eq.
  (* progress = 10 *)
  unfold App.job_step at 1. rewrite (update_task_Some _ _ _ _ H1).
  set (st2 := App.set_storage _ st1).
  assert (H2 : App.task_storage st2 !! tid
               = Some (App.set_progress 10 (App.set_status App.processing t)))
    by apply lookup_insert_eq.
  assert (Hother2 : ∀ id, id ≠ tid → App.task_storage st2 !! id = App.task_storage st !! id).
  { intros id Hne. subst st2 st1. simpl. by rewrite !lookup_insert_ne. }
  (* mkdir, progress = 30 *)
  unfold App.job_step at 1.
  change (files (App.env st2)) with (files (App.env st)).
  fold filename. fold output_path. fold made.
  destruct made eqn:Emade; simpl negb; cbv iota.
  - rewrite (update_task_Some _ _ _ _ H2).
    set (st3 := App.set_storage _ st2).
    assert (H3 : App.task_storage st3 !! tid
                 = Some (App.set_progress 30
                           (App.set_progress 10 (App.set_status App.processing t))))
      by apply lookup_insert_eq.
    assert (Hother3 : ∀ id, id ≠ tid →
              App.task_storage st3 !! id = App.task_storage st !! id).
    { intros id Hne. subst st3. simpl. rewrite lookup_insert_ne by done. auto. }
    unfold App.job_step at 1. fold output_path.
    change (App.env st3) with (App.env st). fold syn.
    destruct syn as [ok w] eqn:Esyn.
    set (st4 := App.set_env w st3).
    assert (H4 : App.task_storage st4 !! tid
                 = Some (App.set_progress 30
                           (App.set_progress 10 (App.set_status App.processing t))))
      by exact H3.
    unfold App.job_step at 1. fold output_path.
    change (files (App.env st4)) with (files w). simpl fst. simpl snd.
    destruct ok, (files w !! output_path) as [info|];
      rewrite (update_task_Some _ _ _ _ H4); simpl;
      (eexists; split; [reflexivity|]); simpl;
      (split; [intros id Hne; rewrite lookup_insert_ne by done; by apply Hother3|]);
      rewrite lookup_insert_eq; eexists; (split; [reflexivity|]); simpl; eauto.
  - unfold App.job_step at 1. rewrite (update_task_Some _ _ _ _ H2).
    simpl. eexists. split; [reflexivity|]. simpl.
    split; [intros id Hne; rewrite lookup_insert_ne by done; by apply Hother2|].
    rewrite lookup_insert_eq. eexists. split; [reflexivity|]. simpl.
    destruct (files syn.2 !! output_path); eauto.
Qed.

Lemma background_task_runs_to_an_end_witness :
  let st := (App.synthesize_speech_async (request_for hello 50) "0a1b2c3d-0000" 5
               fresh_app).2 in
  is_Some (App.task_storage st !! "0a1b2c3d-0000")
  ∧ (job_run working_libraries (Make true true Coqui (Some Pyttsx)) 5
       "0a1b2c3d-0000" (request_for hello 50) "20240101_120000" 0.25%float
       App.AtStart st).1 = App.Finished.
Proof.
  intros st.
  assert (H : App.task_storage st !! "0a1b2c3d-0000"
              = Some {| App.status := App.pending; App.progress := 0;
                        App.created_at := 5; App.request := request_for hello 50;
                        App.result := None; App.error := None |})
    by reflexivity.
  split; [by rewrite H|].
  exact (proj1 (background_task_runs_to_an_end working_libraries
                  (Make true true Coqui (Some Pyttsx)) "0a1b2c3d-0000"
                  (request_for hello 50) "20240101_120000" 0.25%float st _ H)).
Defined.

(** X14. An asynchronous request with a text that is not blank is answered
    with the task identifier drawn, and a poll right after it finds the task
    pending, at progress 0, without result or error; the answers for every
    other identifier are as before, and no engine has been invoked. *)
Theorem accepted_task_is_pending
    (X : externals) (request : TTSRequest) (uuid : string) (now : Z)
    (st : App.state) :
  ¬ blank (req_text request) →
  let r := App.synthesize_speech_async request uuid now st in
  (∃ resp, r.1 = Return resp ∧ success resp = true ∧ task_id resp = Some uuid
           ∧ audio_url resp = None)
  ∧ App.get_task_status uuid r.2
    = Return {| App.ts_task_id := uuid; App.ts_status := App.pending;
                App.ts_progress := 0; App.ts_result := None; App.ts_error := None |}
  ∧ (∀ id, id ≠ uuid → App.get_task_status id r.2 = App.get_task_status id st)
  ∧ App.env r.2 = App.env st.
Proof.
  intros Hnb r. subst r. unfold App.synthesize_speech_async.
  destruct (truthy (strip (req_text request))) eqn:Et; simpl.
  - split; [eauto|]. unfold App.get_task_status. simpl.
    rewrite lookup_insert_eq. split; [done|]. split; [|done].
    intros id Hne. by rewrite lookup_insert_ne.
  - exfalso. apply Hnb, strip_nil_iff. by destruct (strip (req_text request)).
Qed.

Lemma accepted_task_is_pending_witness :
  ¬ blank (req_text (request_for hello 50))
  ∧ App.get_task_status "0a1b2c3d-0000"
      (App.synthesize_speech_async (request_for hello 50) "0a1b2c3d-0000" 5 fresh_app).2
    = Return {| App.ts_task_id := "0a1b2c3d-0000"; App.ts_status := App.pending;
                App.ts_progress := 0; App.ts_result := None; App.ts_error := None |}.
Proof.
  assert (H : ¬ blank (req_text (request_for hello 50))).
  { unfold blank. simpl. discriminate. }
  split; [exact H|].
  exact (proj1 (proj2 (accepted_task_is_pending working_libraries
                         (request_for hello 50) "0a1b2c3d-0000" 5 fresh_app H))).
Defined.

(** X15. [GET /api/status] always answers, with the two availability flags
    and the number of requests counted. On a coordinator built by
    [__init__] the default engine it reports is the primary engine: the one
    that "auto" selects. *)
Theorem status_reports_the_primary
    (coqui_ok pyttsx_ok : bool) (sys : DualTTSSystem.t) (uptime : string)
    (st : App.state) :
  __init__ coqui_ok pyttsx_ok = Some sys →
  ∃ ss, get_system_status sys uptime st = Some ss
        ∧ ss_coqui_available ss = coqui_ok
        ∧ ss_pyttsx3_available ss = pyttsx_ok
        ∧ total_requests ss = App.request_counter st
        ∧ default_engine ss = name (primary sys)
        ∧ selected_engine sys "auto" = Some (primary sys).
Proof.
  intros Hinit.
  destruct (init_cases _ _ _ Hinit) as [[-> ->]|(-> & -> & ->)];
    eexists; (split; [reflexivity|]); done.
Qed.

Lemma status_reports_the_primary_witness :
  __init__ false true = Some (Make false true Pyttsx None)
  ∧ ∃ ss, get_system_status (Make false true Pyttsx None) "0:00:07" fresh_app = Some ss
          ∧ default_engine ss = "pyttsx3".
Proof.
  split; [reflexivity|].
  destruct (status_reports_the_primary false true (Make false true Pyttsx None)
              "0:00:07" fresh_app eq_refl) as (ss & H1 & _ & _ & _ & H2 & _).
  exists ss. split; [exact H1|exact H2].
Defined.

(** X16. [select_female_voice] answers "female" exactly when the engine it
    is asked about is available, where "auto" stands for pyttsx3 when that
    is available and for Coqui otherwise; for any other selector it answers
    nothing. On a coordinator built by [__init__], "auto" always answers
    "female". *)
Theorem select_female_voice_needs_the_engine
    (sys : DualTTSSystem.t) (engine : string) :
  (select_female_voice sys "pyttsx3" = Some "female" ↔ pyttsx_available sys = true)
  ∧ (select_female_voice sys "coqui" = Some "female" ↔ coqui_available sys = true)
  ∧ (select_female_voice sys "auto" = Some "female"
     ↔ pyttsx_available sys = true ∨ coqui_available sys = true)
  ∧ (engine ≠ "auto" → engine ≠ "coqui" → engine ≠ "pyttsx3" →
     select_female_voice sys engine = None)
  ∧ (select_female_voice sys engine = None
     ∨ select_female_voice sys engine = Some "female")
  ∧ (∀ coqui_ok pyttsx_ok, __init__ coqui_ok pyttsx_ok = Some sys →
     select_female_voice sys "auto" = Some "female").
Proof.
  unfold select_female_voice. simpl.
  split; [destruct (pyttsx_available sys), (coqui_available sys); simpl; split; done|].
  split; [destruct (pyttsx_available sys), (coqui_available sys); simpl; split; done|].
  split; [destruct (pyttsx_available sys), (coqui_available sys); simpl;
          intuition (auto; discriminate)|].
  split.
  { intros H1 H2 H3. rewrite decide_False by done.
    rewrite !bool_decide_eq_false_2 by done. done. }
  split.
  { destruct (decide (engine = "auto"));
      destruct (pyttsx_available sys), (coqui_available sys); simpl; auto;
      repeat case_bool_decide; simpl; auto. }
  intros ca pa Hinit.
  destruct (init_cases _ _ _ Hinit) as [[-> ->]|(-> & -> & ->)]; simpl; [|done].
  by destruct pa.
Qed.

(** X17. A voice preview is not counted as a request and touches no task
    record. It answers with the URL of the preview file exactly when the
    directory could be made and the coordinator reported success on the
    fixed preview text, at style "neutral" and intensity 50, with the
    engine "auto" and the voice "" when the request names none; whether the
    file exists is not looked at. *)
Theorem preview_is_not_counted
    (X : externals) (tts_system : DualTTSSystem.t) (request : gmap string string)
    (preview_id : string) (mkdir_ok : bool) (st : App.state) :
  let output_path := "static/audio/" +:+ "preview_" +:+ preview_id +:+ ".wav" in
  let syn := synthesize X tts_system preview_text output_path
               (default "auto" (request !! "engine"))
               (Kwargs "neutral" 50 (Some (default "" (request !! "voice_id"))) None)
               (App.env st) in
  let r := preview_voice X tts_system request preview_id mkdir_ok st in
  App.request_counter r.2 = App.request_counter st
  ∧ App.task_storage r.2 = App.task_storage st
  ∧ App.env r.2 = (if mkdir_ok then syn.2 else App.env st)
  ∧ ((∃ url msg, r.1 = PreviewOk url msg) ↔ mkdir_ok = true ∧ syn.1 = true)
  ∧ (∀ url msg, r.1 = PreviewOk url msg →
       url = "/static/audio/preview_" +:+ preview_id +:+ ".wav").
Proof.
  intros output_path syn r. subst r. unfold preview_voice.
  destruct mkdir_ok; simpl negb; cbv iota.
  - fold output_path. fold syn. destruct syn as [ok w]. simpl.
    split; [done|]. split; [done|]. split; [done|].
    destruct ok; (split; [split|]).
    + intros _. done.
    + intros _. eauto.
    + intros url msg [= <- _]. done.
    + intros (? & ? & ?). done.
    + intros [_ ?]. done.
    + intros url msg [=].
  - simpl. split; [done|]. split; [done|]. split; [done|]. split.
    + split; [intros (? & ? & ?); done|intros [? _]; done].
    + intros url msg [=].
Qed.

(** ** Style parameters, further *)

Lemma coqui_unknown_params style i :
  style ∉ style_enumeration → 0 ≤ i ≤ 100 →
  CoquiTTSEngine._get_style_params style i = Some ∅.
Proof.
  intros Hout Hi.
  destruct (intensity_scale_range i Hi) as (m & Hm & _ & Hz).
  unfold CoquiTTSEngine._get_style_params. rewrite Hm. simpl.
  destruct (CoquiTTSEngine.style_configs m) as [configs|] eqn:E.
  - simpl. by rewrite (coqui_configs_unknown m configs style).
  - unfold CoquiTTSEngine.style_configs, Py.truediv in E. by rewrite Hz in E.
Qed.

Lemma pyttsx_unknown_style style i p :
  style ∉ style_enumeration →
  PyttsxEngine._apply_style style i p = PyttsxEngine._apply_style "neutral" i p.
Proof.
  intros Hout. unfold PyttsxEngine._apply_style.
  destruct (PyttsxEngine.intensity_factor i) as [f|]; [|done].
  change (PyttsxEngine.style_configs !! "neutral")
    with (Some PyttsxEngine.neutral_config).
  cbn [mbind option_bind].
  pose proof (pyttsx_configs_unknown style Hout) as Hnone.
  destruct (PyttsxEngine.style_configs !! style); [discriminate|]. reflexivity.
Qed.

(** X18. Every style that [GET /api/styles] offers (neutral, happy, sad,
    angry, excited, calm, dramatic) is synthesized as "neutral" by both
    adapters: none of the six others is a key of the adapters' tables. *)
Theorem offered_styles_are_all_neutral
    (style : string) (intensity : Z) (p : PyttsxEngine.props) :
  style ∈ api_style_ids →
  0 ≤ intensity ≤ 100 →
  (style = "neutral" ∨ style ∉ style_enumeration)
  ∧ CoquiTTSEngine._get_style_params style intensity = Some ∅
  ∧ PyttsxEngine._apply_style style intensity p
    = PyttsxEngine._apply_style "neutral" intensity p.
Proof.
  intros Hin Hi.
  assert (Hs : style = "neutral" ∨ style ∉ style_enumeration).
  { unfold api_style_ids in Hin. apply list_elem_of_In in Hin. simpl in Hin.
    destruct Hin as [<-|Hin]; [by left|]. right.
    unfold style_enumeration. intros Hen%list_elem_of_In. simpl in Hen.
    repeat (destruct Hin as [<-|Hin];
            [repeat (destruct Hen as [Hen|Hen]; [discriminate|]); exact Hen|]).
    exact Hin. }
  split; [exact Hs|].
  destruct Hs as [->|Hout].
  - split; [by apply coqui_neutral_params|done].
  - split; [by apply coqui_unknown_params|by apply pyttsx_unknown_style].
Qed.

Lemma offered_styles_are_all_neutral_witness :
  ("happy" ∈ api_style_ids)
  ∧ 0 ≤ 100 ≤ 100
  ∧ PyttsxEngine._apply_style "happy" 100 (PyttsxEngine.Props 200 1.0 "")
    = PyttsxEngine._apply_style "neutral" 100 (PyttsxEngine.Props 200 1.0 "").
Proof.
  assert (H1 : "happy" ∈ api_style_ids).
  { unfold api_style_ids. apply list_elem_of_In. simpl. tauto. }
  assert (H2 : 0 ≤ 100 ≤ 100) by lia.
  split; [exact H1|]. split; [exact H2|].
  exact (proj2 (proj2 (offered_styles_are_all_neutral "happy" 100
                         (PyttsxEngine.Props 200 1.0 "") H1 H2))).
Defined.

Lemma float_ltb_leb (x y : float) :
  PrimFloat.ltb x y = true → PrimFloat.leb x y = true.
Proof.
  rewrite FloatAxioms.ltb_spec, FloatAxioms.leb_spec.
  unfold SpecFloat.SFltb, SpecFloat.SFleb.
  by destruct (SpecFloat.SFcompare _ _) as [[]|].
Qed.

(** X19. Whatever the style, the intensity and the engine's properties,
    [_apply_style] never sets a volume above 1.0, and it leaves the voice. *)
Theorem volume_never_exceeds_one
    (style : string) (intensity : Z) (p p' : PyttsxEngine.props) :
  PyttsxEngine._apply_style style intensity p = Some p' →
  PrimFloat.leb (PyttsxEngine.volume p') 1.0%float = true
  ∧ PyttsxEngine.voice p' = PyttsxEngine.voice p.
Proof.
  unfold PyttsxEngine._apply_style. intros H.
  destruct (PyttsxEngine.intensity_factor intensity) as [f|]; [|done].
  simpl in H.
  destruct (PyttsxEngine.style_configs !! "neutral") as [neutral|]; [|done].
  simpl in H.
  destruct (Py.int_mul _ _) as [r|]; [|done]. simpl in H.
  destruct (Py.int_of_float _) as [new_rate|]; [|done]. simpl in H.
  injection H as <-. simpl. split; [|done].
  unfold Py.min.
  destruct (PrimFloat.ltb _ 1%float) eqn:E; [by apply float_ltb_leb|reflexivity].
Qed.

Lemma volume_never_exceeds_one_witness :
  PyttsxEngine._apply_style "enthusiastic" 100 (PyttsxEngine.Props 200 1.0 "")
  = Some (PyttsxEngine.Props 390 1.0 "")
  ∧ PrimFloat.leb (PyttsxEngine.volume (PyttsxEngine.Props 390 1.0 "")) 1.0%float = true.
Proof.
  assert (H : PyttsxEngine._apply_style "enthusiastic" 100 (PyttsxEngine.Props 200 1.0 "")
              = Some (PyttsxEngine.Props 390 1.0 "")) by (vm_compute; reflexivity).
  split; [exact H|].
  exact (proj1 (volume_never_exceeds_one "enthusiastic" 100 _ _ H)).
Defined.

Lemma each_rate (P : Z → bool) :
  forallb P (Z.of_nat <$> seq 0 1001) = true →
  ∀ i, 0 ≤ i ≤ 1000 → P i = true.
Proof.
  intros Hall i Hi. rewrite forallb_forall in Hall. apply Hall.
  apply in_map_iff. exists (Z.to_nat i). split; [lia|].
  apply in_seq. lia.
Qed.

(** X20. At the default intensity 50 the multiplier is exactly 1.0, and the
    style "neutral" gives back the speaking rate it read, for every rate
    from 0 to 1000 words per minute; the volume is only capped at 1.0. *)
Theorem neutral_keeps_the_rate
    (rate : Z) (volume : float) (voice : string) :
  0 ≤ rate ≤ 1000 →
  PyttsxEngine.intensity_factor 50 = Some 1.0%float
  ∧ PyttsxEngine._apply_style "neutral" 50 (PyttsxEngine.Props rate volume voice)
    = Some (PyttsxEngine.Props rate
              (Py.min 1.0%float (volume * 1.0 * 1.0)%float) voice).
Proof.
  intros Hr.
  assert (Hf : PyttsxEngine.intensity_factor 50 = Some 1.0%float)
    by (vm_compute; reflexivity).
  split; [exact Hf|].
  assert (Hk : neutral_rate_kept rate = true).
  { revert rate Hr. apply each_rate. vm_compute. reflexivity. }
  unfold neutral_rate_kept in Hk.
  unfold PyttsxEngine._apply_style. rewrite Hf.
  change (PyttsxEngine.style_configs !! "neutral")
    with (Some PyttsxEngine.neutral_config).
  cbn [mbind option_bind default from_option id PyttsxEngine.rate
       PyttsxEngine.volume PyttsxEngine.voice PyttsxEngine.neutral_config
       PyttsxEngine.rate_mult PyttsxEngine.volume_mult].
  destruct (Py.int_mul rate 1%float) as [r|]; [|done].
  cbn [mbind option_bind] in Hk |- *.
  destruct (Py.int_of_float (r * 1)%float) as [rate'|]; [|done].
  apply Z.eqb_eq in Hk. by subst rate'.
Qed.

Lemma neutral_keeps_the_rate_witness :
  0 ≤ 200 ≤ 1000
  ∧ PyttsxEngine._apply_style "neutral" 50 (PyttsxEngine.Props 200 1.0 "")
    = Some (PyttsxEngine.Props 200 (Py.min 1.0%float (1.0 * 1.0 * 1.0)%float) "").
Proof.
  assert (H : 0 ≤ 200 ≤ 1000) by lia.
  split; [exact H|].
  exact (proj2 (neutral_keeps_the_rate 200 1.0%float "" H)).
Defined.

(** ** Voice selection *)

Section VoiceSelection.

Import Voices.

Variable lower : string → string.
Variable parse_int : string → option Z.

Lemma prefix_cons a n b h :
  String.prefix (String a n) (String b h) = true → a = b ∧ String.prefix n h = true.
Proof. cbn [String.prefix]. by destruct (Ascii.ascii_dec a b). Qed.

Lemma contains_prefix n h : String.prefix n h = true → contains n h = true.
Proof. intros H. destruct h; cbn [contains]; by rewrite H. Qed.

Lemma contains_cons n c h : contains n h = true → contains n (String c h) = true.
Proof. intros H. cbn [contains]. rewrite H. apply orb_true_r. Qed.

Lemma contains_empty h : contains "" h = true.
Proof. by destruct h. Qed.

(** Where "female" occurs, "male" occurs: two characters further. *)
Lemma contains_female_male h : contains "female" h = true → contains "male" h = true.
Proof.
  induction h as [|c h IH]; [done|].
  intros H. cbn [contains] in H. apply orb_true_iff in H as [H|H].
  - apply prefix_cons in H as [<- H].
    destruct h as [|c2 h]; [discriminate H|].
    apply prefix_cons in H as [<- H].
    by apply contains_cons, contains_cons, contains_prefix.
  - by apply contains_cons, IH.
Qed.

Lemma any_in_intro indicators indicator n :
  indicator ∈ indicators → contains indicator n = true → any_in indicators n = true.
Proof.
  intros Hin Hc. unfold any_in. apply existsb_exists.
  exists indicator. split; [by apply list_elem_of_In|done].
Qed.

(** X21. A voice whose lowered name holds "female" is listed with the
    gender "female", and yet it is a match for the search for a male voice,
    because "male" occurs in "female": when it is the first voice,
    [_find_male_voice] returns it, and a query for a male voice selects
    it. *)
Theorem male_search_matches_female_names
    (v : voice) (voices : list voice) (s q : string) (p : PyttsxEngine.props) :
  name v = Str s →
  contains "female" (lower s) = true →
  lower q ∈ male_words →
  _detect_gender lower s = "female"
  ∧ _find_male_voice lower (v :: voices) = Some (Some v)
  ∧ _select_voice lower parse_int (v :: voices) q p = Some (set_voice (id v) p).
Proof.
  intros Hn Hf Hq.
  assert (Hfem : any_in female_indicators (lower s) = true).
  { apply (any_in_intro _ "female"); [|done].
    unfold female_indicators. apply list_elem_of_In. simpl. tauto. }
  assert (Hmale : any_in male_indicators (lower s) = true).
  { apply (any_in_intro _ "male"); [|by apply contains_female_male].
    unfold male_indicators. apply list_elem_of_In. simpl. tauto. }
  assert (Hfind : _find_male_voice lower (v :: voices) = Some (Some v)).
  { unfold _find_male_voice. cbn [first_indicated]. unfold name_lower.
    rewrite Hn. cbn [mbind option_bind]. by rewrite Hmale. }
  split; [unfold _detect_gender; by rewrite Hfem|]. split; [exact Hfind|].
  unfold _select_voice.
  assert (Hnf : lower q ∉ female_words).
  { unfold male_words in Hq. unfold female_words.
    apply list_elem_of_In in Hq. simpl in Hq.
    intros Hin%list_elem_of_In. simpl in Hin.
    repeat (destruct Hq as [Hq|Hq];
            [rewrite <- Hq in Hin;
             repeat (destruct Hin as [Hin|Hin]; [discriminate|]); exact Hin|]).
    exact Hq. }
  rewrite bool_decide_eq_false_2 by done.
  rewrite bool_decide_eq_true_2 by done.
  by rewrite Hfind.
Qed.

(** X22. The empty query selects the first voice: it is no gender word and
    no number, and the empty string occurs in every name. *)
Theorem empty_query_selects_first_voice
    (v : voice) (voices : list voice) (p : PyttsxEngine.props) :
  lower "" = "" →
  parse_int "" = None →
  name v ≠ IsNone →
  _select_voice lower parse_int (v :: voices) "" p = Some (set_voice (id v) p).
Proof.
  intros Hl Hp Hn. unfold _select_voice. rewrite Hl.
  rewrite !bool_decide_eq_false_2.
  - unfold by_index_or_name. rewrite Hp, Hl. simpl. unfold name_lower.
    destruct (name v); simpl; try done; by rewrite contains_empty.
  - unfold male_words. intros Hin%list_elem_of_In. simpl in Hin.
    repeat (destruct Hin as [Hin|Hin]; [discriminate|]). exact Hin.
  - unfold female_words. intros Hin%list_elem_of_In. simpl in Hin.
    repeat (destruct Hin as [Hin|Hin]; [discriminate|]). exact Hin.
Qed.

Lemma by_name_frame q voices p p' :
  by_name lower q voices p = Some p' →
  p' = p ∨ ∃ v, v ∈ voices ∧ p' = set_voice (id v) p.
Proof.
  induction voices as [|v voices IH]; simpl; [intros [= <-]; by left|].
  destruct (name_lower lower "" v) as [n|]; [|done]. simpl.
  destruct (contains q n).
  - intros [= <-]. right. exists v. split; [by left|done].
  - intros H. destruct (IH H) as [?|(v' & ? & ?)]; [by left|].
    right. exists v'. split; [by right|done].
Qed.

Lemma by_index_or_name_frame q voices p p' :
  by_index_or_name lower parse_int q voices p = Some p' →
  p' = p ∨ ∃ v, v ∈ voices ∧ p' = set_voice (id v) p.
Proof.
  unfold by_index_or_name.
  destruct (parse_int q) as [idx|]; [|apply by_name_frame].
  destruct (_ && _); [|apply by_name_frame].
  destruct (voices !! Z.to_nat idx) as [v|] eqn:E; [|apply by_name_frame].
  intros [= <-]. right. exists v. split; [|done].
  by eapply list_elem_of_lookup_2.
Qed.

Lemma first_indicated_elem indicators voices v :
  first_indicated lower indicators voices = Some (Some v) → v ∈ voices.
Proof.
  induction voices as [|v0 voices IH]; simpl; [done|].
  destruct (name_lower lower "" v0) as [n|]; [|done]. simpl.
  destruct (any_in indicators n).
  - intros [= <-]. by left.
  - intros H. right. auto.
Qed.

(** X23. [_select_voice] changes nothing but the voice, and the voice it
    sets is the identifier of one of the voices the engine enumerates; with
    no voice to choose from, and whatever the query, it leaves the
    properties as they are. *)
Theorem select_voice_sets_a_listed_voice
    (voices : list voice) (q : string) (p p' : PyttsxEngine.props) :
  _select_voice lower parse_int voices q p = Some p' →
  PyttsxEngine.rate p' = PyttsxEngine.rate p
  ∧ PyttsxEngine.volume p' = PyttsxEngine.volume p
  ∧ (p' = p ∨ ∃ v, v ∈ voices ∧ PyttsxEngine.voice p' = id v)
  ∧ (voices = [] → p' = p).
Proof.
  intros H.
  assert (Hframe : p' = p ∨ ∃ v, v ∈ voices ∧ p' = set_voice (id v) p).
  { unfold _select_voice in H.
    destruct (bool_decide (lower q ∈ female_words)).
    - unfold _find_female_voice in H.
      destruct (first_indicated lower female_indicators voices) as [[v|]|] eqn:E;
        [| |done]; simpl in H.
      + injection H as <-. right. exists v. split; [|done].
        by eapply first_indicated_elem.
      + destruct voices as [|v0 voices']; simpl in H.
        * by apply by_index_or_name_frame in H.
        * injection H as <-. right. exists v0. split; [by left|done].
    - destruct (bool_decide (lower q ∈ male_words)).
      + unfold _find_male_voice in H.
        destruct (first_indicated lower male_indicators voices) as [[v|]|] eqn:E;
          [| |done]; simpl in H.
        * injection H as <-. right. exists v. split; [|done].
          by eapply first_indicated_elem.
        * destruct voices as [|v0 [|v1 voices']]; simpl in H.
          -- by apply by_index_or_name_frame in H.
          -- injection H as <-. right. exists v0. split; [by left|done].
          -- injection H as <-. right. exists v1.
             split; [right; by left|done].
      + by apply by_index_or_name_frame in H. }
  destruct Hframe as [->|(v & Hv & ->)].
  - repeat split; auto.
  - repeat split; eauto. intros ->. by apply not_elem_of_nil in Hv.
Qed.

Lemma by_index_selected (voices : list voice) (q : string) (idx : nat) (v : voice)
    (p : PyttsxEngine.props) :
  lower q ∉ female_words →
  lower q ∉ male_words →
  parse_int q = Some (Z.of_nat idx) →
  voices !! idx = Some v →
  _select_voice lower parse_int voices q p = Some (set_voice (id v) p).
Proof.
  intros Hf Hm Hp Hv. unfold _select_voice.
  rewrite !bool_decide_eq_false_2 by done.
  unfold by_index_or_name. rewrite Hp.
  apply lookup_lt_Some in Hv as Hlt.
  assert (H1 : (0 <=? Z.of_nat idx) = true) by (apply Z.leb_le; lia).
  assert (H2 : (Z.of_nat idx <? Z.of_nat (length voices)) = true)
    by (apply Z.ltb_lt; lia).
  rewrite H1, H2. simpl. by rewrite Nat2Z.id, Hv.
Qed.

(** X24. A query that is no gender word and reads as a number within the
    list selects the voice at that index, whatever the names are, [None]
    included; the name matching is not reached. A number outside the list
    is matched against the names like any other text. *)
Theorem index_selects_that_voice
    (voices : list voice) (q : string) (idx : Z) (p : PyttsxEngine.props) :
  lower q ∉ female_words →
  lower q ∉ male_words →
  parse_int q = Some idx →
  _select_voice lower parse_int voices q p
  = if (0 <=? idx) && (idx <? Z.of_nat (length voices))
    then (λ v, set_voice (id v) p) <$> voices !! Z.to_nat idx
    else by_name lower (lower q) voices p.
Proof.
  intros Hf Hm Hp.
  destruct ((0 <=? idx) && (idx <? Z.of_nat (length voices))) eqn:E.
  - apply andb_true_iff in E as [H1%Z.leb_le H2%Z.ltb_lt].
    destruct (voices !! Z.to_nat idx) as [v|] eqn:Ev.
    + simpl. apply (by_index_selected voices q (Z.to_nat idx) v p Hf Hm); [|done].
      rewrite Hp. f_equal. lia.
    + apply lookup_ge_None in Ev. lia.
  - unfold _select_voice. rewrite !bool_decide_eq_false_2 by done.
    unfold by_index_or_name. by rewrite Hp, E.
Qed.

(** X25. A gender word selects a voice whenever there is one and every
    name is a string: the first voice with an indicator of that gender in
    its name, or else the first voice (for a female word) or the second, if
    there is one (for a male word). The index and the name of the query are
    not looked at. *)
Theorem gender_word_always_selects
    (voices : list voice) (q : string) (p : PyttsxEngine.props) :
  voices ≠ [] →
  (∀ v, v ∈ voices → name v ≠ IsNone) →
  lower q ∈ female_words ∨ lower q ∈ male_words →
  ∃ v, v ∈ voices
       ∧ _select_voice lower parse_int voices q p = Some (set_voice (id v) p)
       ∧ (lower q ∈ female_words → _find_female_voice lower voices = Some (Some v))
       ∧ (lower q ∉ female_words → _find_male_voice lower voices = Some (Some v)).
Proof.
  intros Hne Hnames Hq.
  assert (Hfirst : ∀ indicators,
    ∃ r, first_indicated lower indicators voices = Some r
         ∧ ∀ v, r = Some v → v ∈ voices).
  { intros indicators. clear Hne.
    induction voices as [|v0 voices' IH]; simpl; [eexists; split; done|].
    assert (Hn0 : name v0 ≠ IsNone) by (apply Hnames; by left).
    unfold name_lower at 1.
    destruct (name v0) eqn:En; [|done|]; simpl;
      (destruct (any_in indicators _);
       [eexists; split; [done|]; intros v [= <-]; by left|]);
      (destruct IH as (r & -> & Hr); [intros; apply Hnames; by right|]);
      (eexists; split; [done|]; intros v Hv; right; auto). }
  unfold _select_voice.
  destruct (decide (lower q ∈ female_words)) as [Hf|Hf].
  - rewrite bool_decide_eq_true_2 by done.
    destruct (Hfirst female_indicators) as (r & Hr & Hin).
    unfold _find_female_voice. rewrite Hr. simpl.
    destruct r as [v|].
    + exists v. split; [auto|]. split; [done|]. split; done.
    + destruct voices as [|v0 voices']; [done|]. simpl.
      exists v0. split; [by left|]. split; [done|]. split; done.
  - rewrite bool_decide_eq_false_2 by done.
    destruct Hq as [?|Hm]; [done|].
    rewrite bool_decide_eq_true_2 by done.
    destruct (Hfirst male_indicators) as (r & Hr & Hin).
    unfold _find_male_voice. rewrite Hr. simpl.
    destruct r as [v|].
    + exists v. split; [auto|]. split; [done|]. split; done.
    + destruct voices as [|v0 [|v1 voices']]; [done| |]; simpl.
      * exists v0. split; [by left|]. split; [done|]. split; done.
      * exists v1. split; [right; by left|]. split; [done|]. split; done.
Qed.

Lemma list_from_spec voices : ∀ i l,
  list_from lower i voices = Some l →
  length l = length voices
  ∧ ∀ k info, l !! k = Some info →
      vi_index info = (i + k)%nat
      ∧ vi_gender info = _detect_gender lower (vi_name info)
      ∧ ∃ v, voices !! k = Some v ∧ vi_id info = id v
             ∧ (name v = Str (vi_name info)
                ∨ name v = Absent ∧ vi_name info = "Unknown").
Proof.
  induction voices as [|v voices IH]; intros i l; simpl.
  - intros [= <-]. split; [done|]. intros k info Hk. done.
  - destruct (name v) as [| |s] eqn:En; [|done|]; simpl;
      (destruct (list_from lower (S i) voices) as [rest|] eqn:Er; [|done]);
      simpl; intros [= <-];
      (destruct (IH _ _ Er) as [Hlen Hrest]);
      (split; [simpl; by rewrite Hlen|]);
      intros [|k] info Hk; simpl in Hk.
    + injection Hk as <-. simpl. split; [lia|]. split; [done|].
      exists v. rewrite En. auto.
    + destruct (Hrest k info Hk) as (Hi & Hg & Hv).
      split; [lia|]. split; [done|]. exact Hv.
    + injection Hk as <-. simpl. split; [lia|]. split; [done|].
      exists v. rewrite En. auto.
    + destruct (Hrest k info Hk) as (Hi & Hg & Hv).
      split; [lia|]. split; [done|]. exact Hv.
Qed.

Lemma list_from_None voices : ∀ i,
  list_from lower i voices = None ↔ ∃ v, v ∈ voices ∧ name v = IsNone.
Proof.
  induction voices as [|v voices IH]; intros i; simpl.
  - split; [done|]. intros (v & Hv & _). by apply not_elem_of_nil in Hv.
  - destruct (name v) eqn:En; simpl.
    + destruct (list_from lower (S i) voices) as [rest|] eqn:Er; simpl.
      * split; [done|]. intros (v' & [->|Hv']%elem_of_cons & Hn); [congruence|].
        assert (list_from lower (S i) voices = None) as Hnone
          by (apply IH; eauto). congruence.
      * split; [|done]. intros _.
        destruct (proj1 (IH (S i)) Er) as (v' & ? & ?).
        exists v'. split; [by right|done].
    + split; [|done]. intros _. exists v. split; [by left|done].
    + destruct (list_from lower (S i) voices) as [rest|] eqn:Er; simpl.
      * split; [done|]. intros (v' & [->|Hv']%elem_of_cons & Hn); [congruence|].
        assert (list_from lower (S i) voices = None) as Hnone
          by (apply IH; eauto). congruence.
      * split; [|done]. intros _.
        destruct (proj1 (IH (S i)) Er) as (v' & ? & ?).
        exists v'. split; [by right|done].
Qed.

(** X26. [list_voices] of an unavailable engine is empty. Otherwise it has
    one entry for each voice, in order: entry [k] carries the index [k],
    the identifier and name of voice [k] ("Unknown" for a voice without
    the attribute) and the gender detected from that name. It raises
    exactly when the name of a voice is [None]. *)
Theorem list_voices_enumerates (available : bool) (voices : list voice) :
  (available = false → list_voices lower available voices = Some [])
  ∧ (available = true →
     (list_voices lower available voices = None
      ↔ ∃ v, v ∈ voices ∧ name v = IsNone)
     ∧ ∀ l, list_voices lower available voices = Some l →
         length l = length voices
         ∧ ∀ k info, l !! k = Some info →
             vi_index info = k
             ∧ vi_gender info = _detect_gender lower (vi_name info)
             ∧ ∃ v, voices !! k = Some v ∧ vi_id info = id v
                    ∧ (name v = Str (vi_name info)
                       ∨ name v = Absent ∧ vi_name info = "Unknown")).
Proof.
  split; [by intros ->|]. intros ->. unfold list_voices. simpl. split.
  - apply list_from_None.
  - intros l Hl. destruct (list_from_spec voices 0 l Hl) as [Hlen Hk].
    split; [done|]. intros k info Hinfo. apply (Hk k info Hinfo).
Qed.

End VoiceSelection.

(** ** The engine's properties across requests *)

Lemma apply_style_voice style intensity p p' :
  PyttsxEngine._apply_style style intensity p = Some p' →
  PyttsxEngine.voice p' = PyttsxEngine.voice p.
Proof.
  unfold PyttsxEngine._apply_style. intros H.
  destruct (PyttsxEngine.intensity_factor intensity) as [f|]; [|done].
  simpl in H.
  destruct (PyttsxEngine.style_configs !! "neutral") as [neutral|]; [|done].
  simpl in H.
  destruct (Py.int_mul _ _) as [r|]; [|done]. simpl in H.
  destruct (Py.int_of_float _) as [new_rate|]; [|done]. simpl in H.
  by injection H as <-.
Qed.

Lemma pyttsx_synthesize_props X t p kw w q :
  kw_voice kw = None →
  PyttsxEngine._apply_style (kw_style kw) (kw_intensity kw) (pyttsx_props w) = Some q →
  pyttsx_props (pyttsx_synthesize X true t p kw w).2 = q.
Proof.
  intros Hv Hq. unfold pyttsx_synthesize. rewrite Hv. simpl. rewrite Hq.
  by destruct (save_to_file_and_run X _ _ _).
Qed.

(** X27. The style of a request is applied to the rate and volume the
    engine has at that moment, and the result stays in the engine: the
    properties after two requests in a row are the second style applied to
    the outcome of the first, not to the engine's original properties.
    This holds whether or not the library then wrote the audio. *)
Theorem style_effects_accumulate
    (X : externals) (t1 t2 : text) (p1 p2 : string) (kw1 kw2 : synth_kwargs)
    (w : world) (q1 q2 : PyttsxEngine.props) :
  kw_voice kw1 = None →
  kw_voice kw2 = None →
  PyttsxEngine._apply_style (kw_style kw1) (kw_intensity kw1) (pyttsx_props w) = Some q1 →
  PyttsxEngine._apply_style (kw_style kw2) (kw_intensity kw2) q1 = Some q2 →
  let r1 := pyttsx_synthesize X true t1 p1 kw1 w in
  let r2 := pyttsx_synthesize X true t2 p2 kw2 r1.2 in
  pyttsx_props r1.2 = q1 ∧ pyttsx_props r2.2 = q2.
Proof.
  intros Hv1 Hv2 H1 H2 r1 r2.
  assert (E1 : pyttsx_props r1.2 = q1) by by apply pyttsx_synthesize_props.
  split; [exact E1|].
  apply pyttsx_synthesize_props; [done|]. by rewrite E1.
Qed.

(** X28. When the first voice the engine enumerates has the name [None], a
    request that asks for a voice by name fails in pyttsx3's adapter before
    anything is changed or written: the lookup of the name raises, and the
    adapter reports a failure. *)
Theorem nameless_voice_fails_named_requests
    (X : externals) (lower : string → string) (parse_int : string → option Z)
    (v : Voices.voice) (voices : list Voices.voice) (q : string)
    (t : text) (p : string) (kw : synth_kwargs) (w : world) :
  Voices.name v = Voices.IsNone →
  lower q ∉ Voices.female_words →
  lower q ∉ Voices.male_words →
  parse_int q = None →
  kw_voice kw = Some q →
  pyttsx_synthesize (with_voices lower parse_int (v :: voices) X) true t p kw w
  = (false, log_call Pyttsx w).
Proof.
  intros Hn Hf Hm Hp Hv. unfold pyttsx_synthesize. rewrite Hv. simpl.
  unfold Voices._select_voice.
  rewrite !bool_decide_eq_false_2 by done.
  unfold Voices.by_index_or_name. rewrite Hp. simpl.
  unfold Voices.name_lower. by rewrite Hn.
Qed.


Lemma male_search_matches_female_names_witness :
  let v := Voices.Voice "voice.generic" (Voices.Str "Generic Female Voice") None in
  Voices.name v = Voices.Str "Generic Female Voice"
  ∧ Voices.contains "female" (ascii_lower "Generic Female Voice") = true
  ∧ ascii_lower "Male" ∈ Voices.male_words
  ∧ Voices._detect_gender ascii_lower "Generic Female Voice" = "female"
  ∧ Voices._find_male_voice ascii_lower [v] = Some (Some v)
  ∧ Voices._select_voice ascii_lower digits_int [v] "Male" (PyttsxEngine.Props 200 1.0 "")
    = Some (Voices.set_voice "voice.generic" (PyttsxEngine.Props 200 1.0 "")).
Proof.
  intros v.
  assert (H1 : Voices.name v = Voices.Str "Generic Female Voice") by reflexivity.
  assert (H2 : Voices.contains "female" (ascii_lower "Generic Female Voice") = true)
    by (vm_compute; reflexivity).
  assert (H3 : ascii_lower "Male" ∈ Voices.male_words).
  { apply list_elem_of_In. vm_compute. left. reflexivity. }
  split; [exact H1|]. split; [exact H2|]. split; [exact H3|].
  exact (male_search_matches_female_names ascii_lower digits_int v []
           "Generic Female Voice" "Male" (PyttsxEngine.Props 200 1.0 "") H1 H2 H3).
Defined.

Lemma empty_query_selects_first_voice_witness :
  ascii_lower "" = ""
  ∧ digits_int "" = None
  ∧ Voices._select_voice ascii_lower digits_int sample_voices ""
      (PyttsxEngine.Props 200 1.0 "")
    = Some (Voices.set_voice "voice.david" (PyttsxEngine.Props 200 1.0 "")).
Proof.
  split; [reflexivity|]. split; [reflexivity|].
  refine (empty_query_selects_first_voice ascii_lower digits_int
            (Voices.Voice "voice.david" (Voices.Str "microsoft david desktop") None)
            _ (PyttsxEngine.Props 200 1.0 "") eq_refl eq_refl _).
  discriminate.
Defined.

Lemma select_voice_sets_a_listed_voice_witness :
  Voices._select_voice ascii_lower digits_int sample_voices "Zira"
    (PyttsxEngine.Props 200 1.0 "")
  = Some (PyttsxEngine.Props 200 1.0 "voice.zira")
  ∧ PyttsxEngine.rate (PyttsxEngine.Props 200 1.0 "voice.zira")
    = PyttsxEngine.rate (PyttsxEngine.Props 200 1.0 "").
Proof.
  assert (H : Voices._select_voice ascii_lower digits_int sample_voices "Zira"
                (PyttsxEngine.Props 200 1.0 "")
              = Some (PyttsxEngine.Props 200 1.0 "voice.zira"))
    by (vm_compute; reflexivity).
  split; [exact H|].
  exact (proj1 (select_voice_sets_a_listed_voice ascii_lower digits_int
                  sample_voices "Zira" _ _ H)).
Defined.

Lemma index_selects_that_voice_witness :
  (ascii_lower "1" ∉ Voices.female_words)
  ∧ (ascii_lower "1" ∉ Voices.male_words)
  ∧ digits_int "1" = Some 1
  ∧ Voices._select_voice ascii_lower digits_int sample_voices "1"
      (PyttsxEngine.Props 200 1.0 "")
    = Some (PyttsxEngine.Props 200 1.0 "voice.zira").
Proof.
  assert (H1 : ascii_lower "1" ∉ Voices.female_words).
  { intros H%list_elem_of_In. vm_compute in H. intuition discriminate. }
  assert (H2 : ascii_lower "1" ∉ Voices.male_words).
  { intros H%list_elem_of_In. vm_compute in H. intuition discriminate. }
  split; [exact H1|]. split; [exact H2|]. split; [reflexivity|].
  exact (index_selects_that_voice ascii_lower digits_int sample_voices "1" 1
           (PyttsxEngine.Props 200 1.0 "") H1 H2 eq_refl).
Defined.

Lemma gender_word_always_selects_witness :
  sample_voices ≠ []
  ∧ (∀ v, v ∈ sample_voices → Voices.name v ≠ Voices.IsNone)
  ∧ (ascii_lower "Wanita" ∈ Voices.female_words
     ∨ ascii_lower "Wanita" ∈ Voices.male_words)
  ∧ ∃ v, v ∈ sample_voices
         ∧ Voices._select_voice ascii_lower digits_int sample_voices "Wanita"
             (PyttsxEngine.Props 200 1.0 "")
           = Some (Voices.set_voice (Voices.id v) (PyttsxEngine.Props 200 1.0 "")).
Proof.
  assert (H1 : sample_voices ≠ []) by discriminate.
  assert (H2 : ∀ v, v ∈ sample_voices → Voices.name v ≠ Voices.IsNone).
  { intros v Hv%list_elem_of_In. simpl in Hv.
    destruct Hv as [<-|[<-|[<-|[]]]]; discriminate. }
  assert (H3 : ascii_lower "Wanita" ∈ Voices.female_words
               ∨ ascii_lower "Wanita" ∈ Voices.male_words).
  { left. apply list_elem_of_In. vm_compute. right. right. left. reflexivity. }
  split; [exact H1|]. split; [exact H2|]. split; [exact H3|].
  destruct (gender_word_always_selects ascii_lower digits_int sample_voices
              "Wanita" (PyttsxEngine.Props 200 1.0 "") H1 H2 H3)
    as (v & Hv & Hs & _).
  exists v. split; [exact Hv|exact Hs].
Defined.

Lemma list_voices_enumerates_witness :
  ∃ l, Voices.list_voices ascii_lower true sample_voices = Some l
       ∧ length l = length sample_voices.
Proof.
  eexists. split; [reflexivity|].
  exact (proj1 (proj2 (proj2 (list_voices_enumerates ascii_lower true sample_voices)
                         eq_refl) _ eq_refl)).
Defined.

Lemma select_female_voice_needs_the_engine_witness :
  __init__ true false = Some (Make true false Coqui (Some Pyttsx))
  ∧ select_female_voice (Make true false Coqui (Some Pyttsx)) "auto" = Some "female".
Proof.
  split; [reflexivity|].
  exact (proj2 (proj2 (proj2 (proj2 (proj2
    (select_female_voice_needs_the_engine (Make true false Coqui (Some Pyttsx)) "auto")))))
    true false eq_refl).
Defined.

Lemma preview_is_not_counted_witness :
  let r := preview_voice working_libraries (Make true true Coqui (Some Pyttsx)) ∅
             "0a1b2c3d" true fresh_app in
  r.1 = PreviewOk "/static/audio/preview_0a1b2c3d.wav"
          "Voice preview generated successfully"
  ∧ "/static/audio/preview_0a1b2c3d.wav" = "/static/audio/preview_" +:+ "0a1b2c3d" +:+ ".wav".
Proof.
  intros r.
  assert (H : r.1 = PreviewOk "/static/audio/preview_0a1b2c3d.wav"
                      "Voice preview generated successfully") by reflexivity.
  split; [exact H|].
  exact (proj2 (proj2 (proj2 (proj2
    (preview_is_not_counted working_libraries (Make true true Coqui (Some Pyttsx)) ∅
       "0a1b2c3d" true fresh_app)))) _ _ H).
Defined.

Lemma style_effects_accumulate_witness :
  let kw := Kwargs "enthusiastic" 100 None None in
  kw_voice kw = None
  ∧ PyttsxEngine._apply_style "enthusiastic" 100 (pyttsx_props empty_world)
    = Some (PyttsxEngine.Props 390 1.0 "")
  ∧ PyttsxEngine._apply_style "enthusiastic" 100 (PyttsxEngine.Props 390 1.0 "")
    = Some (PyttsxEngine.Props 760 1.0 "")
  ∧ pyttsx_props
      (pyttsx_synthesize working_libraries true hello "b.wav" kw
         (pyttsx_synthesize working_libraries true hello "a.wav" kw empty_world).2).2
    = PyttsxEngine.Props 760 1.0 "".
Proof.
  intros kw.
  assert (H1 : PyttsxEngine._apply_style "enthusiastic" 100 (pyttsx_props empty_world)
               = Some (PyttsxEngine.Props 390 1.0 "")) by (vm_compute; reflexivity).
  assert (H2 : PyttsxEngine._apply_style "enthusiastic" 100 (PyttsxEngine.Props 390 1.0 "")
               = Some (PyttsxEngine.Props 760 1.0 "")) by (vm_compute; reflexivity).
  split; [reflexivity|]. split; [exact H1|]. split; [exact H2|].
  exact (proj2 (style_effects_accumulate working_libraries hello hello "a.wav" "b.wav"
                  kw kw empty_world _ _ eq_refl eq_refl H1 H2)).
Defined.

Lemma nameless_voice_fails_named_requests_witness :
  let v := Voices.Voice "voice.x" Voices.IsNone None in
  let kw := Kwargs "neutral" 50 (Some "Zira") None in
  Voices.name v = Voices.IsNone
  ∧ (ascii_lower "Zira" ∉ Voices.female_words)
  ∧ (ascii_lower "Zira" ∉ Voices.male_words)
  ∧ digits_int "Zira" = None
  ∧ pyttsx_synthesize (with_voices ascii_lower digits_int (v :: sample_voices)
                         working_libraries) true hello "out.wav" kw empty_world
    = (false, log_call Pyttsx empty_world).
Proof.
  intros v kw.
  assert (H1 : ascii_lower "Zira" ∉ Voices.female_words).
  { intros H%list_elem_of_In. vm_compute in H. intuition discriminate. }
  assert (H2 : ascii_lower "Zira" ∉ Voices.male_words).
  { intros H%list_elem_of_In. vm_compute in H. intuition discriminate. }
  split; [reflexivity|]. split; [exact H1|]. split; [exact H2|].
  split; [reflexivity|].
  exact (nameless_voice_fails_named_requests working_libraries ascii_lower digits_int
           v sample_voices "Zira" hello "out.wav" kw empty_world
           eq_refl H1 H2 eq_refl eq_refl).
Defined.

(** ** The voice list of the application *)

Section ApiVoices.

Import Voices Api.

Variable lower : string → string.
Variable title : string → string.
Variable str : nat → string.
Variable parse_int : string → option Z.

Lemma entries_from_lookup voices : ∀ i k entry,
  entries_from lower title str i voices !! k = Some entry →
  av_id entry = str (i + k)
  ∧ av_gender entry = gender_of lower (av_name entry)
  ∧ ∃ v, voices !! k = Some v
         ∧ (name v = Str (av_name entry)
            ∨ name v = Absent ∧ av_name entry = "Voice " +:+ str (i + k)).
Proof.
  induction voices as [|v voices IH]; intros i k entry; simpl; [done|].
  destruct (name v) as [| |s] eqn:En; [|done|]; destruct k as [|k]; simpl.
  - intros [= <-]. simpl. rewrite Nat.add_0_r. split; [done|]. split; [done|].
    exists v. rewrite En. auto.
  - intros Hk. destruct (IH _ _ _ Hk) as (Hid & Hg & Hv).
    rewrite Nat.add_succ_r. auto.
  - intros [= <-]. simpl. rewrite Nat.add_0_r. split; [done|]. split; [done|].
    exists v. rewrite En. auto.
  - intros Hk. destruct (IH _ _ _ Hk) as (Hid & Hg & Hv).
    rewrite Nat.add_succ_r. auto.
Qed.

Lemma entries_from_length voices : ∀ i,
  (length (entries_from lower title str i voices) ≤ length voices)%nat
  ∧ ((∀ v, v ∈ voices → name v ≠ IsNone) →
     length (entries_from lower title str i voices) = length voices).
Proof.
  induction voices as [|v voices IH]; intros i; simpl; [done|].
  destruct (IH (S i)) as [Hle Heq].
  destruct (name v) eqn:En; simpl.
  - split; [lia|]. intros Hall. rewrite Heq; [done|].
    intros u Hu. apply Hall. by right.
  - split; [lia|]. intros Hall. exfalso. apply (Hall v); [by left|done].
  - split; [lia|]. intros Hall. rewrite Heq; [done|].
    intros u Hu. apply Hall. by right.
Qed.

Lemma entries_from_prefix pre v post : ∀ i,
  (∀ u, u ∈ pre → name u ≠ IsNone) →
  name v = IsNone →
  length (entries_from lower title str i (pre ++ v :: post)) = length pre.
Proof.
  induction pre as [|u pre IH]; intros i Hpre Hv; simpl.
  - by rewrite Hv.
  - assert (Hu : name u ≠ IsNone) by (apply Hpre; by left).
    destruct (name u); [|done|]; simpl; f_equal; apply IH; try done;
      intros u' Hu'; apply Hpre; by right.
Qed.

(** X29. The identifier [GET /api/voices] lists for a pyttsx3 voice is its
    index written out, and it leads back to the voice: given as the voice
    of a request, it makes [_select_voice] select the voice at that place
    of the engine's list. *)
Theorem listed_id_selects_its_voice
    (tts_system : DualTTSSystem.t) (voices : list voice) (k : nat)
    (entry : api_voice) (p : PyttsxEngine.props) :
  vd_pyttsx3 (get_available_voices lower title str tts_system (Some voices)) !! k
  = Some entry →
  parse_int (str k) = Some (Z.of_nat k) →
  lower (str k) ∉ female_words →
  lower (str k) ∉ male_words →
  av_id entry = str k
  ∧ ∃ v, voices !! k = Some v
         ∧ _select_voice lower parse_int voices (av_id entry) p
           = Some (set_voice (id v) p).
Proof.
  unfold get_available_voices. simpl. intros Hk Hp Hf Hm.
  destruct (DualTTSSystem.pyttsx_available tts_system); [|done].
  destruct (entries_from_lookup voices 0 k entry Hk) as (Hid & _ & v & Hv & _).
  simpl in Hid. split; [done|]. exists v. split; [done|].
  rewrite Hid. by apply (by_index_selected lower parse_int voices (str k) k v p).
Qed.

(** X30. [GET /api/voices] always reports success. Its pyttsx3 list is
    empty when the engine is unavailable or cannot be started; it has an
    entry for every voice when every name is a string or missing; and
    when the name of a voice is [None] it stops there without a word: the
    voices before it are listed, that voice and the ones after it are
    not, whereas the adapter's [list_voices] raises on the same list. *)
Theorem api_list_stops_at_nameless
    (tts_system : DualTTSSystem.t) (voices : list voice) :
  let l := vd_pyttsx3 (get_available_voices lower title str tts_system (Some voices)) in
  vd_success (get_available_voices lower title str tts_system (Some voices)) = true
  ∧ vd_pyttsx3 (get_available_voices lower title str tts_system None) = []
  ∧ (DualTTSSystem.pyttsx_available tts_system = false → l = [])
  ∧ (DualTTSSystem.pyttsx_available tts_system = true →
     (length l ≤ length voices)%nat
     ∧ ((∀ v, v ∈ voices → name v ≠ IsNone) → length l = length voices)
     ∧ ∀ pre v post,
         voices = pre ++ v :: post →
         (∀ u, u ∈ pre → name u ≠ IsNone) →
         name v = IsNone →
         length l = length pre ∧ list_voices lower true voices = None).
Proof.
  intros l. subst l. unfold get_available_voices. simpl.
  split; [done|]. split; [by destruct (DualTTSSystem.pyttsx_available _)|].
  split; [by intros ->|]. intros ->.
  destruct (entries_from_length voices 0) as [Hle Heq].
  split; [done|]. split; [done|].
  intros pre v post -> Hpre Hv. split; [by apply entries_from_prefix|].
  unfold list_voices. simpl. apply list_from_None.
  exists v. split; [|done]. apply elem_of_app. right. by left.
Qed.

End ApiVoices.

Lemma listed_id_selects_its_voice_witness :
  let sys := DualTTSSystem.Make false true Pyttsx None in
  let data := Api.get_available_voices ascii_lower (λ s, s) digit_str sys
                (Some sample_voices) in
  ∃ entry,
    Api.vd_pyttsx3 data !! 1%nat = Some entry
    ∧ digits_int (digit_str 1) = Some (Z.of_nat 1)
    ∧ (ascii_lower (digit_str 1) ∉ Voices.female_words)
    ∧ (ascii_lower (digit_str 1) ∉ Voices.male_words)
    ∧ Api.av_id entry = digit_str 1
    ∧ ∃ v, sample_voices !! 1%nat = Some v
           ∧ Voices._select_voice ascii_lower digits_int sample_voices
               (Api.av_id entry) (PyttsxEngine.Props 200 1.0 "")
             = Some (Voices.set_voice (Voices.id v) (PyttsxEngine.Props 200 1.0 "")).
Proof.
  intros sys data. eexists.
  assert (H1 : ascii_lower (digit_str 1) ∉ Voices.female_words).
  { intros H%list_elem_of_In. vm_compute in H. intuition discriminate. }
  assert (H2 : ascii_lower (digit_str 1) ∉ Voices.male_words).
  { intros H%list_elem_of_In. vm_compute in H. intuition discriminate. }
  split; [reflexivity|]. split; [reflexivity|].
  split; [exact H1|]. split; [exact H2|].
  exact (listed_id_selects_its_voice ascii_lower (λ s, s) digit_str digits_int sys
           sample_voices 1 _ (PyttsxEngine.Props 200 1.0 "") eq_refl eq_refl H1 H2).
Defined.

Lemma api_list_stops_at_nameless_witness :
  let sys := DualTTSSystem.Make false true Pyttsx None in
  let nameless := Voices.Voice "voice.x" Voices.IsNone None in
  DualTTSSystem.pyttsx_available sys = true
  ∧ length (Api.vd_pyttsx3
              (Api.get_available_voices ascii_lower (λ s, s) digit_str sys
                 (Some (sample_voices ++ nameless :: sample_voices))))
    = length sample_voices
  ∧ Voices.list_voices ascii_lower true (sample_voices ++ nameless :: sample_voices)
    = None.
Proof.
  intros sys nameless. split; [reflexivity|].
  refine (proj2 (proj2 (proj2 (proj2 (proj2 (api_list_stops_at_nameless ascii_lower
            (λ s, s) digit_str sys (sample_voices ++ nameless :: sample_voices))))
            eq_refl)) sample_voices nameless sample_voices eq_refl _ eq_refl).
  intros u Hu%list_elem_of_In. simpl in Hu.
  destruct Hu as [<-|[<-|[<-|[]]]]; discriminate.
Defined.
